(** * diff-rust front end: store, diff composable and hunk scan

    A shallow embedding of the TypeScript front end of the directory diff
    viewer:

    - [src/stores/app.ts]: the Pinia store (state, computed values, actions);
    - [src/composables/useDiff.ts]: the asynchronous calls to the back end
      ([loadDiff], [refreshDiff], [checkDeltaInstalled], the option toggles);
    - [src/components/FileTree.vue], [TreeItem.vue], [DiffView.vue]: the click
      and key handlers, the watcher on the selected file, and the hunk scan
      [findHunks];
    - [src/App.vue]: [initialize], [handleLoadDirs], [handleShowPicker], and
      which of the directory picker and the main view is rendered.

    JavaScript runs every handler to completion; an [async] function is
    embedded as its synchronous prefix (up to the [await]) and its
    continuation (run when the promise settles). *)

From Stdlib Require Import List String Ascii ZArith NArith Bool Lia Arith.
Import ListNotations.
Open Scope string_scope.
Open Scope list_scope.
Open Scope Z_scope.

(* ------------------------------------------------------------------ *)
(** ** JavaScript values used by the front end *)

(** A string whose contents are inspected: its UTF-16 code units. *)
Definition jsstring := list N.

(** An ASCII literal as a JavaScript string. *)
Definition lit (s : string) : jsstring := map N_of_ascii (list_ascii_of_string s).

(** [s.startsWith(search)] on code units. *)
Fixpoint startsWith (s search : jsstring) {struct search} : bool :=
  match search, s with
  | [], _ => true
  | _ :: _, [] => false
  | c :: search', d :: s' => N.eqb c d && startsWith s' search'
  end.

(** [s.includes(search)]: [search] occurs at some position of [s]. *)
Fixpoint includes (s search : jsstring) : bool :=
  startsWith s search ||
  match s with
  | [] => false
  | _ :: s' => includes s' search
  end.

(** [arr.findIndex(p)]: the first index whose element satisfies [p], or -1. *)
Fixpoint findIndexFrom {A : Type} (p : A -> bool) (l : list A) (k : Z) : Z :=
  match l with
  | [] => -1
  | x :: l' => if p x then k else findIndexFrom p l' (k + 1)
  end.

Definition findIndex {A : Type} (p : A -> bool) (l : list A) : Z :=
  findIndexFrom p l 0.

(** [arr[i]]: [None] stands for [undefined] (index out of range). *)
Definition at_index {A : Type} (l : list A) (i : Z) : option A :=
  if i <? 0 then None else nth_error l (Z.to_nat i).

(** The outcome of an awaited promise; a rejection carries [String(error)]. *)
Inductive Settled (A : Type) : Type :=
| Fulfilled (value : A)
| Rejected (reason : string).
Arguments Fulfilled {A} value.
Arguments Rejected {A} reason.

(* ------------------------------------------------------------------ *)
(** ** Data model ([src/stores/app.ts]) *)

(** The four change statuses a tree node can carry. *)
Inductive Change : Type := Added | Deleted | Modified | Renamed.

(** ['Added' | 'Deleted' | 'Modified' | 'Renamed' | 'Unchanged']. *)
Inductive FileStatus : Type :=
| Changed (c : Change)
| Unchanged.

Module FileEntry.
Record t : Type := mk {
  path : string;
  name : string;
  status : FileStatus;
  is_dir : bool;
  left_path : option string;
  right_path : option string
}.
End FileEntry.

Module FileTreeNode.
#[warnings="-register-all"] Inductive t : Type := mk {
  name : string;
  path : string;
  status : option Change;
  is_dir : bool;
  children : list t;
  left_path : option string;
  right_path : option string
}.
End FileTreeNode.

Module DiffOptions.
Record t : Type := mk {
  side_by_side : bool;
  line_numbers : bool;
  collapsed : bool;
  show_whitespace : bool
}.

(** [keyof DiffOptions]. *)
Inductive key : Type := Side_by_side | Line_numbers | Collapsed | Show_whitespace.

Definition key_eqb (a b : key) : bool :=
  match a, b with
  | Side_by_side, Side_by_side
  | Line_numbers, Line_numbers
  | Collapsed, Collapsed
  | Show_whitespace, Show_whitespace => true
  | _, _ => false
  end.

(** [options[key]]. *)
Definition get (k : key) (o : t) : bool :=
  match k with
  | Side_by_side => side_by_side o
  | Line_numbers => line_numbers o
  | Collapsed => collapsed o
  | Show_whitespace => show_whitespace o
  end.

(** [options[key] = value]. *)
Definition set (k : key) (v : bool) (o : t) : t :=
  match k with
  | Side_by_side => mk v (line_numbers o) (collapsed o) (show_whitespace o)
  | Line_numbers => mk (side_by_side o) v (collapsed o) (show_whitespace o)
  | Collapsed => mk (side_by_side o) (line_numbers o) v (show_whitespace o)
  | Show_whitespace => mk (side_by_side o) (line_numbers o) (collapsed o) v
  end.
End DiffOptions.

Module DiffResult.
Record t : Type := mk {
  html : string;
  has_changes : bool;
  hunk_count : Z;
  left_html : option string;
  right_html : option string
}.
End DiffResult.

(** The answer of the [get_file_tree] command ([useDiff.ts]). *)
Module FileTreeResult.
Record t : Type := mk {
  tree : list FileTreeNode.t;
  files : list FileEntry.t;
  total_changes : Z;
  added : Z;
  deleted : Z;
  modified : Z
}.
End FileTreeResult.

(* ------------------------------------------------------------------ *)
(** ** The store ([useAppStore]) *)

Module Store.

(** The sixteen refs of the store. *)
Record t : Type := mk {
  leftDir : option string;
  rightDir : option string;
  fileTree : list FileTreeNode.t;
  files : list FileEntry.t;
  totalChanges : Z;
  addedCount : Z;
  deletedCount : Z;
  modifiedCount : Z;
  selectedFile : option FileEntry.t;
  currentDiff : option DiffResult.t;
  isLoadingDiff : bool;
  diffError : option string;
  viewOptions : DiffOptions.t;
  deltaInstalled : bool;
  isLoadingTree : bool;
  treeError : option string
}.

(** The values the refs are created with. *)
Definition initial : t :=
  {| leftDir := None; rightDir := None;
     fileTree := []; files := [];
     totalChanges := 0; addedCount := 0; deletedCount := 0; modifiedCount := 0;
     selectedFile := None;
     currentDiff := None; isLoadingDiff := false; diffError := None;
     viewOptions := DiffOptions.mk true true true false;
     deltaInstalled := true;
     isLoadingTree := false; treeError := None |}.

(** *** Computed values *)

Definition hasSelection (s : t) : bool :=
  match selectedFile s with Some _ => true | None => false end.

Definition hasChanges (s : t) : bool := totalChanges s >? 0.

(** The body of the [for] loop of [flattenTree]: what one node adds to
    [result]. *)
Fixpoint flattenNode (node : FileTreeNode.t) (result : list FileEntry.t)
  : list FileEntry.t :=
  if FileTreeNode.is_dir node then
    result ++ fold_left (fun r n => flattenNode n r) (FileTreeNode.children node) []
  else
    match FileTreeNode.status node with
    | Some st =>
        result ++ [ FileEntry.mk (FileTreeNode.path node) (FileTreeNode.name node)
                      (Changed st) false
                      (FileTreeNode.left_path node) (FileTreeNode.right_path node) ]
    | None => result
    end.

Definition flattenTree (nodes : list FileTreeNode.t) : list FileEntry.t :=
  fold_left (fun r n => flattenNode n r) nodes [].

Definition changedFiles (s : t) : list FileEntry.t := flattenTree (fileTree s).

Definition currentFileIndex (s : t) : Z :=
  match selectedFile s with
  | None => -1
  | Some sel =>
      findIndex (fun f => String.eqb (FileEntry.path f) (FileEntry.path sel))
                (changedFiles s)
  end.

Definition canGoPrev (s : t) : bool := currentFileIndex s >? 0.

Definition canGoNext (s : t) : bool :=
  currentFileIndex s <? Z.of_nat (List.length (changedFiles s)) - 1.

(** *** Assignments to the refs ([x.value = v]) *)

Definition set_leftDir (v : option string) (s : t) : t :=
  mk v (rightDir s) (fileTree s) (files s) (totalChanges s) (addedCount s)
    (deletedCount s) (modifiedCount s) (selectedFile s) (currentDiff s)
    (isLoadingDiff s) (diffError s) (viewOptions s) (deltaInstalled s)
    (isLoadingTree s) (treeError s).

Definition set_rightDir (v : option string) (s : t) : t :=
  mk (leftDir s) v (fileTree s) (files s) (totalChanges s) (addedCount s)
    (deletedCount s) (modifiedCount s) (selectedFile s) (currentDiff s)
    (isLoadingDiff s) (diffError s) (viewOptions s) (deltaInstalled s)
    (isLoadingTree s) (treeError s).

Definition set_fileTree (v : list FileTreeNode.t) (s : t) : t :=
  mk (leftDir s) (rightDir s) v (files s) (totalChanges s) (addedCount s)
    (deletedCount s) (modifiedCount s) (selectedFile s) (currentDiff s)
    (isLoadingDiff s) (diffError s) (viewOptions s) (deltaInstalled s)
    (isLoadingTree s) (treeError s).

Definition set_files (v : list FileEntry.t) (s : t) : t :=
  mk (leftDir s) (rightDir s) (fileTree s) v (totalChanges s) (addedCount s)
    (deletedCount s) (modifiedCount s) (selectedFile s) (currentDiff s)
    (isLoadingDiff s) (diffError s) (viewOptions s) (deltaInstalled s)
    (isLoadingTree s) (treeError s).

Definition set_totalChanges (v : Z) (s : t) : t :=
  mk (leftDir s) (rightDir s) (fileTree s) (files s) v (addedCount s)
    (deletedCount s) (modifiedCount s) (selectedFile s) (currentDiff s)
    (isLoadingDiff s) (diffError s) (viewOptions s) (deltaInstalled s)
    (isLoadingTree s) (treeError s).

Definition set_addedCount (v : Z) (s : t) : t :=
  mk (leftDir s) (rightDir s) (fileTree s) (files s) (totalChanges s) v
    (deletedCount s) (modifiedCount s) (selectedFile s) (currentDiff s)
    (isLoadingDiff s) (diffError s) (viewOptions s) (deltaInstalled s)
    (isLoadingTree s) (treeError s).

Definition set_deletedCount (v : Z) (s : t) : t :=
  mk (leftDir s) (rightDir s) (fileTree s) (files s) (totalChanges s)
    (addedCount s) v (modifiedCount s) (selectedFile s) (currentDiff s)
    (isLoadingDiff s) (diffError s) (viewOptions s) (deltaInstalled s)
    (isLoadingTree s) (treeError s).

Definition set_modifiedCount (v : Z) (s : t) : t :=
  mk (leftDir s) (rightDir s) (fileTree s) (files s) (totalChanges s)
    (addedCount s) (deletedCount s) v (selectedFile s) (currentDiff s)
    (isLoadingDiff s) (diffError s) (viewOptions s) (deltaInstalled s)
    (isLoadingTree s) (treeError s).

Definition set_selectedFile (v : option FileEntry.t) (s : t) : t :=
  mk (leftDir s) (rightDir s) (fileTree s) (files s) (totalChanges s)
    (addedCount s) (deletedCount s) (modifiedCount s) v (currentDiff s)
    (isLoadingDiff s) (diffError s) (viewOptions s) (deltaInstalled s)
    (isLoadingTree s) (treeError s).

Definition set_currentDiff (v : option DiffResult.t) (s : t) : t :=
  mk (leftDir s) (rightDir s) (fileTree s) (files s) (totalChanges s)
    (addedCount s) (deletedCount s) (modifiedCount s) (selectedFile s) v
    (isLoadingDiff s) (diffError s) (viewOptions s) (deltaInstalled s)
    (isLoadingTree s) (treeError s).

Definition set_isLoadingDiff (v : bool) (s : t) : t :=
  mk (leftDir s) (rightDir s) (fileTree s) (files s) (totalChanges s)
    (addedCount s) (deletedCount s) (modifiedCount s) (selectedFile s)
    (currentDiff s) v (diffError s) (viewOptions s) (deltaInstalled s)
    (isLoadingTree s) (treeError s).

Definition set_diffError (v : option string) (s : t) : t :=
  mk (leftDir s) (rightDir s) (fileTree s) (files s) (totalChanges s)
    (addedCount s) (deletedCount s) (modifiedCount s) (selectedFile s)
    (currentDiff s) (isLoadingDiff s) v (viewOptions s) (deltaInstalled s)
    (isLoadingTree s) (treeError s).

Definition set_viewOptions (v : DiffOptions.t) (s : t) : t :=
  mk (leftDir s) (rightDir s) (fileTree s) (files s) (totalChanges s)
    (addedCount s) (deletedCount s) (modifiedCount s) (selectedFile s)
    (currentDiff s) (isLoadingDiff s) (diffError s) v (deltaInstalled s)
    (isLoadingTree s) (treeError s).

Definition set_deltaInstalled (v : bool) (s : t) : t :=
  mk (leftDir s) (rightDir s) (fileTree s) (files s) (totalChanges s)
    (addedCount s) (deletedCount s) (modifiedCount s) (selectedFile s)
    (currentDiff s) (isLoadingDiff s) (diffError s) (viewOptions s) v
    (isLoadingTree s) (treeError s).

Definition set_isLoadingTree (v : bool) (s : t) : t :=
  mk (leftDir s) (rightDir s) (fileTree s) (files s) (totalChanges s)
    (addedCount s) (deletedCount s) (modifiedCount s) (selectedFile s)
    (currentDiff s) (isLoadingDiff s) (diffError s) (viewOptions s)
    (deltaInstalled s) v (treeError s).

Definition set_treeError (v : option string) (s : t) : t :=
  mk (leftDir s) (rightDir s) (fileTree s) (files s) (totalChanges s)
    (addedCount s) (deletedCount s) (modifiedCount s) (selectedFile s)
    (currentDiff s) (isLoadingDiff s) (diffError s) (viewOptions s)
    (deltaInstalled s) (isLoadingTree s) v.

(** Statements of an action run in order: [f ;; g] runs [f], then [g]. *)
Definition seq (f g : t -> t) : t -> t := fun s => g (f s).
Infix ";;" := seq (at level 61, left associativity).

(** *** Actions *)

Definition setDirectories (left right : string) : t -> t :=
  set_leftDir (Some left) ;; set_rightDir (Some right).

Definition setFileTree (tree : list FileTreeNode.t) (fileList : list FileEntry.t)
  (total added deleted modified : Z) : t -> t :=
  set_fileTree tree ;;
  set_files fileList ;;
  set_totalChanges total ;;
  set_addedCount added ;;
  set_deletedCount deleted ;;
  set_modifiedCount modified ;;
  set_treeError None ;;
  set_isLoadingTree false.

Definition selectFile (file : option FileEntry.t) : t -> t :=
  set_selectedFile file ;;
  set_currentDiff None ;;
  set_diffError None.

Definition setDiff (result : DiffResult.t) : t -> t :=
  set_currentDiff (Some result) ;;
  set_isLoadingDiff false ;;
  set_diffError None.

Definition setDiffLoading (loading : bool) : t -> t :=
  set_isLoadingDiff loading.

Definition setDiffError (error : string) : t -> t :=
  set_diffError (Some error) ;;
  set_isLoadingDiff false ;;
  set_currentDiff None.

Definition setTreeLoading (loading : bool) : t -> t :=
  set_isLoadingTree loading.

Definition setTreeError (error : string) : t -> t :=
  set_treeError (Some error) ;;
  set_isLoadingTree false.

Definition setViewOption (key : DiffOptions.key) (value : bool) : t -> t :=
  fun s => set_viewOptions (DiffOptions.set key value (viewOptions s)) s.

(** Every field of [DiffOptions] is a boolean, so the [typeof] test of the
    source always succeeds. *)
Definition toggleViewOption (key : DiffOptions.key) : t -> t :=
  fun s =>
    set_viewOptions
      (DiffOptions.set key (negb (DiffOptions.get key (viewOptions s))) (viewOptions s)) s.

Definition setDeltaInstalled (installed : bool) : t -> t :=
  set_deltaInstalled installed.

Definition selectPrevFile : t -> t :=
  fun s =>
    if canGoPrev s
    then selectFile (at_index (changedFiles s) (currentFileIndex s - 1)) s
    else s.

Definition selectNextFile : t -> t :=
  fun s =>
    if canGoNext s
    then selectFile (at_index (changedFiles s) (currentFileIndex s + 1)) s
    else s.

Definition selectFirstFile : t -> t :=
  fun s =>
    if Z.of_nat (List.length (changedFiles s)) >? 0
    then selectFile (at_index (changedFiles s) 0) s
    else s.

End Store.

(* ------------------------------------------------------------------ *)
(** ** The hunk scan of [DiffView.vue] *)

Module DiffView.

(** U+2500, the box-drawing dash of delta's separator lines. *)
Definition dash : N := 9472%N.

(** [html.includes('───') || html.includes('────')]. *)
Definition isHunkSep (html : jsstring) : bool :=
  includes html [dash; dash; dash] || includes html [dash; dash; dash; dash].

(** [html.includes('background') || html.includes('bg-')]. *)
Definition isChangedLine (html : jsstring) : bool :=
  includes html (lit "background") || includes html (lit "bg-").

(** The two variables the scan updates. A line element is identified by its
    position in [allLines]. *)
Record scan : Type := mkScan {
  hunks : list nat;
  inChange : bool
}.

(** The callback of [allLines.forEach], applied to the line at [index]. *)
Definition scanLine (st : scan) (index : nat) (html : jsstring) : scan :=
  if isHunkSep html then
    mkScan (hunks st ++ [index]) false
  else if isChangedLine html && negb (inChange st) then
    mkScan (hunks st ++ [index]) true
  else if negb (isChangedLine html) then
    mkScan (hunks st) false
  else st.

Fixpoint forEachFrom (allLines : list jsstring) (index : nat) (st : scan) : scan :=
  match allLines with
  | [] => st
  | html :: rest => forEachFrom rest (S index) (scanLine st index html)
  end.

(** The array [hunks] when the loop ends. *)
Definition scanLines (allLines : list jsstring) : list nat :=
  hunks (forEachFrom allLines 0%nat (mkScan [] false)).

(** The refs of the component that the scan and the navigation use. *)
Record t : Type := mk {
  hunkElements : option (list nat);
  currentHunkIndex : Z
}.

(** [findHunks]: [diffContainer] is [None] while the template ref is unset,
    otherwise the innerHTML of its [.diff-line] elements in document order. *)
Definition findHunks (diffContainer : option (list jsstring)) (v : t) : t :=
  match diffContainer with
  | None => v
  | Some allLines =>
      let hunks := scanLines allLines in
      mk (if Z.of_nat (List.length hunks) >? 0 then Some hunks else None)
         (currentHunkIndex v)
  end.

(** How the [if] chain of the scan reads a line: the separator test comes
    first, then the changed-line test; any other line is context. *)
Inductive LineKind : Type := SeparatorLine | ChangedLine | ContextLine.

Definition kind (html : jsstring) : LineKind :=
  if isHunkSep html then SeparatorLine
  else if isChangedLine html then ChangedLine
  else ContextLine.

Definition is_changed (html : jsstring) : bool :=
  match kind html with ChangedLine => true | _ => false end.

(** Whether the last line of the lines scanned so far is a changed line. *)
Definition endsInChange (allLines : list jsstring) : bool :=
  match List.length allLines with
  | O => false
  | S j =>
      match nth_error allLines j with
      | Some prev => is_changed prev
      | None => false
      end
  end.

End DiffView.

(* ------------------------------------------------------------------ *)
(** ** The composable [useDiff] *)

Module UseDiff.

(** A continuation of an [async] function: it updates the store and ends
    by returning a value or by throwing. *)
Definition Async (A : Type) : Type := Store.t -> Store.t * Settled A.

Definition ret {A : Type} (a : A) : Async A := fun s => (s, Fulfilled a).

Definition bind {A B : Type} (m : Async A) (k : A -> Async B) : Async B :=
  fun s =>
    match m s with
    | (s', Fulfilled a) => k a s'
    | (s', Rejected e) => (s', Rejected e)
    end.

(** [await p] for a promise that settles as [p]. *)
Definition await {A : Type} (p : Settled A) : Async A := fun s => (s, p).

(** A call of a store action. *)
Definition act (f : Store.t -> Store.t) : Async unit := fun s => (f s, Fulfilled tt).

(** [try { body } catch (error) { handler }]. *)
Definition try_catch {A : Type} (body : Async A) (handler : string -> Async A)
  : Async A :=
  fun s =>
    match body s with
    | (s', Fulfilled a) => (s', Fulfilled a)
    | (s', Rejected e) => handler e s'
    end.

Notation "x <- m ;; k" := (bind m (fun x => k))
  (at level 61, m at next level, right associativity).
Notation "m ;; k" := (bind m (fun _ => k))
  (at level 61, right associativity).

(** The arguments of one [invoke('get_diff', ...)], read when the call is
    made, and the [file] argument of the [loadDiff] call that made it. *)
Record request : Type := mkRequest {
  file : FileEntry.t;
  leftPath : option string;
  rightPath : option string;
  options : DiffOptions.t
}.

(** [loadDiff] up to its [await]: the two store calls, and the request. *)
Definition loadDiff_begin (file : FileEntry.t) (s : Store.t) : Store.t * request :=
  let s1 := Store.setDiffLoading true s in
  let s2 := Store.selectFile (Some file) s1 in
  (s2, mkRequest file (FileEntry.left_path file) (FileEntry.right_path file)
         (Store.viewOptions s2)).

(** [loadDiff] from the point where [invoke] settles as [reply]. *)
Definition loadDiff_resume (reply : Settled DiffResult.t) : Async unit :=
  try_catch
    (result <- await reply ;;
     act (Store.setDiff result))
    (fun error => act (Store.setDiffError error)).

(** [loadFileTree] up to its [await]. *)
Definition loadFileTree_begin (leftDir rightDir : string) (s : Store.t) : Store.t :=
  Store.setDirectories leftDir rightDir (Store.setTreeLoading true s).

(** [loadFileTree] from the point where [invoke] settles as [reply]. *)
Definition loadFileTree_resume (reply : Settled FileTreeResult.t) : Async unit :=
  try_catch
    (result <- await reply ;;
     act (Store.setFileTree
            (FileTreeResult.tree result) (FileTreeResult.files result)
            (FileTreeResult.total_changes result) (FileTreeResult.added result)
            (FileTreeResult.deleted result) (FileTreeResult.modified result)) ;;
     if Z.of_nat (List.length (FileTreeResult.files result)) >? 0
     then act Store.selectFirstFile
     else ret tt)
    (fun error => act (Store.setTreeError error)).

(** [checkDeltaInstalled] from the point where [invoke('check_delta')]
    settles as [reply] (nothing happens before). *)
Definition checkDeltaInstalled (reply : Settled bool) : Async bool :=
  try_catch
    (installed <- await reply ;;
     act (Store.setDeltaInstalled installed) ;;
     ret installed)
    (fun _ =>
     act (Store.setDeltaInstalled false) ;;
     ret false).

End UseDiff.

(* ------------------------------------------------------------------ *)
(** ** The running application *)

Module App.

(** Which JavaScript object a [FileEntry] value is: the watcher of
    [DiffView.vue] fires when [store.selectedFile] becomes a different
    object. [handleFileClick] builds a new object literal on every call;
    the other entries are elements of the array that [changedFiles] computes,
    once for each assignment of [fileTree]. *)
Inductive ObjRef : Type :=
| Literal (n : nat)
| Flattened (epoch index : nat).

Definition ref_eqb (a b : ObjRef) : bool :=
  match a, b with
  | Literal n, Literal m => Nat.eqb n m
  | Flattened e i, Flattened e' i' => Nat.eqb e e' && Nat.eqb i i'
  | _, _ => false
  end.

Definition same_object (a b : option ObjRef) : bool :=
  match a, b with
  | Some x, Some y => ref_eqb x y
  | None, None => true
  | _, _ => false
  end.

(** The store together with what surrounds it: object identities, the
    watcher of [DiffView.vue], the calls to the back end, and whether the
    main view is rendered. [App.vue] renders the directory picker while
    [showDirectoryPicker] is true and the main view ([FileTree], [Toolbar],
    [DiffView]) otherwise; the watcher and the key handler of [DiffView]
    exist only while the main view is rendered. *)
Record t : Type := mk {
  store : Store.t;
  selected : option ObjRef;       (* the object held by [selectedFile] *)
  epoch : nat;                    (* assignments of [fileTree] so far *)
  literals : nat;                 (* objects built by [handleFileClick] so far *)
  watched : option ObjRef;        (* [selectedFile] at the watcher's last run *)
  issued : list UseDiff.request;  (* every [get_diff] call, oldest first *)
  inflight : list nat;            (* positions in [issued] not settled yet *)
  treeLoads : nat;                (* [get_file_tree] calls not settled yet *)
  delivered : option nat;         (* the call whose result [setDiff] stored last *)
  showDirectoryPicker : bool;     (* the ref of [App.vue] *)
  mounted : bool                  (* the main view is rendered *)
}.

Definition initial : t :=
  mk Store.initial None 0 0 None [] [] 0 None true false.

(** [loadDiff(file)] up to its [await], [file] being the object [r]. *)
Definition loadDiff (r : ObjRef) (file : FileEntry.t) (w : t) : t :=
  let '(s, req) := UseDiff.loadDiff_begin file (store w) in
  mk s (Some r) (epoch w) (literals w) (watched w)
     (issued w ++ [req]) (inflight w ++ [List.length (issued w)])
     (treeLoads w) (delivered w) (showDirectoryPicker w) (mounted w).

(** [refreshDiff] up to the [await] inside [loadDiff]. *)
Definition refreshDiff (w : t) : t :=
  match Store.selectedFile (store w), selected w with
  | Some file, Some r => loadDiff r file w
  | _, _ => w
  end.

(** [toggleSideBySide], [toggleLineNumbers], [toggleCollapsed] and
    [toggleWhitespace]: the same two statements, one key each. *)
Definition toggle (key : DiffOptions.key) (w : t) : t :=
  refreshDiff
    (mk (Store.toggleViewOption key (store w)) (selected w) (epoch w) (literals w)
        (watched w) (issued w) (inflight w) (treeLoads w) (delivered w)
        (showDirectoryPicker w) (mounted w)).


(** [FileTree.vue], [handleFileClick(node)]. *)
Definition handleFileClick (node : FileTreeNode.t) (w : t) : t :=
  if negb (FileTreeNode.is_dir node) then
    let file :=
      FileEntry.mk (FileTreeNode.path node) (FileTreeNode.name node)
        (match FileTreeNode.status node with
         | Some st => Changed st
         | None => Unchanged
         end)
        false (FileTreeNode.left_path node) (FileTreeNode.right_path node) in
    loadDiff (Literal (literals w)) file
      (mk (store w) (selected w) (epoch w) (S (literals w)) (watched w)
          (issued w) (inflight w) (treeLoads w) (delivered w)
          (showDirectoryPicker w) (mounted w))
  else w.

(** The node of the [TreeItem] reached from the roots by the child
    positions [pos]; a [TreeItem] shows children only under a directory. *)
Fixpoint node_at (nodes : list FileTreeNode.t) (pos : list nat)
  : option FileTreeNode.t :=
  match pos with
  | [] => None
  | i :: rest =>
      match nth_error nodes i with
      | None => None
      | Some node =>
          match rest with
          | [] => Some node
          | _ :: _ =>
              if FileTreeNode.is_dir node
              then node_at (FileTreeNode.children node) rest
              else None
          end
      end
  end.

(** [TreeItem.vue], [handleClick] and the [select] event up to [FileTree]:
    a click on a directory only folds or unfolds it. *)
Definition clickTreeItem (pos : list nat) (w : t) : t :=
  match node_at (Store.fileTree (store w)) pos with
  | Some node => if FileTreeNode.is_dir node then w else handleFileClick node w
  | None => w
  end.

(** The object [changedFiles.value[i]]. *)
Definition listed (w : t) (i : Z) : option ObjRef :=
  match at_index (Store.changedFiles (store w)) i with
  | Some _ => Some (Flattened (epoch w) (Z.to_nat i))
  | None => None
  end.

(** [store.selectNextFile()] and [store.selectPrevFile()], the keys [j] and
    [k] of [handleKeydown]. *)
Definition selectNextFile (w : t) : t :=
  mk (Store.selectNextFile (store w))
     (if Store.canGoNext (store w)
      then listed w (Store.currentFileIndex (store w) + 1)
      else selected w)
     (epoch w) (literals w) (watched w) (issued w) (inflight w) (treeLoads w)
     (delivered w) (showDirectoryPicker w) (mounted w).

Definition selectPrevFile (w : t) : t :=
  mk (Store.selectPrevFile (store w))
     (if Store.canGoPrev (store w)
      then listed w (Store.currentFileIndex (store w) - 1)
      else selected w)
     (epoch w) (literals w) (watched w) (issued w) (inflight w) (treeLoads w)
     (delivered w) (showDirectoryPicker w) (mounted w).

(** [loadFileTree] up to its [await]. *)
Definition loadFileTree (leftDir rightDir : string) (w : t) : t :=
  mk (UseDiff.loadFileTree_begin leftDir rightDir (store w)) (selected w) (epoch w)
     (literals w) (watched w) (issued w) (inflight w) (S (treeLoads w)) (delivered w)
     (showDirectoryPicker w) (mounted w).

(** [handleLoadDirs] and [initialize] of [App.vue], once they have the two
    directories: [showDirectoryPicker.value = false], then [loadFileTree]. *)
Definition openDirectories (leftDir rightDir : string) (w : t) : t :=
  loadFileTree leftDir rightDir
    (mk (store w) (selected w) (epoch w) (literals w) (watched w) (issued w)
        (inflight w) (treeLoads w) (delivered w) false (mounted w)).

(** [handleShowPicker] of [App.vue]. *)
Definition handleShowPicker (w : t) : t :=
  mk (store w) (selected w) (epoch w) (literals w) (watched w) (issued w)
     (inflight w) (treeLoads w) (delivered w) true (mounted w).

(** [loadFileTree] after its [await]: on success [fileTree] is assigned, and
    [selectFirstFile] selects the first element of the new [changedFiles]. *)
Definition fileTreeSettled (reply : Settled FileTreeResult.t) (w : t) : t :=
  let s := fst (UseDiff.loadFileTree_resume reply (store w)) in
  match reply with
  | Fulfilled result =>
      let e := S (epoch w) in
      mk s
         (if (Z.of_nat (List.length (FileTreeResult.files result)) >? 0)
             && (Z.of_nat (List.length (Store.changedFiles s)) >? 0)
          then Some (Flattened e 0)
          else selected w)
         e (literals w) (watched w) (issued w) (inflight w)
         (Nat.pred (treeLoads w)) (delivered w) (showDirectoryPicker w) (mounted w)
  | Rejected _ =>
      mk s (selected w) (epoch w) (literals w) (watched w) (issued w) (inflight w)
         (Nat.pred (treeLoads w)) (delivered w) (showDirectoryPicker w) (mounted w)
  end.

(** [loadDiff] after its [await], for the call at position [id]. *)
Definition getDiffSettled (id : nat) (reply : Settled DiffResult.t) (w : t) : t :=
  mk (fst (UseDiff.loadDiff_resume reply (store w))) (selected w) (epoch w)
     (literals w) (watched w) (issued w)
     (filter (fun j => negb (Nat.eqb j id)) (inflight w)) (treeLoads w)
     (match reply with Fulfilled _ => Some id | Rejected _ => delivered w end)
     (showDirectoryPicker w) (mounted w).

(** [checkDeltaInstalled] after its [await]. *)
Definition deltaChecked (reply : Settled bool) (w : t) : t :=
  mk (fst (UseDiff.checkDeltaInstalled reply (store w))) (selected w) (epoch w)
     (literals w) (watched w) (issued w) (inflight w) (treeLoads w) (delivered w)
     (showDirectoryPicker w) (mounted w).

(** The render of [App.vue] after a handler: the main view is removed when
    the picker is shown, and created when the picker is hidden. [DiffView]
    creates its watcher when it is created; the watcher is not immediate, so
    it starts from the value [store.selectedFile] has then. *)
Definition render (w : t) : t :=
  if showDirectoryPicker w then
    if mounted w
    then mk (store w) (selected w) (epoch w) (literals w) (watched w) (issued w)
            (inflight w) (treeLoads w) (delivered w) (showDirectoryPicker w) false
    else w
  else
    if mounted w then w
    else mk (store w) (selected w) (epoch w) (literals w) (selected w) (issued w)
            (inflight w) (treeLoads w) (delivered w) (showDirectoryPicker w) true.

(** The watcher of [DiffView.vue] on [store.selectedFile], run when the
    handler that changed the store has returned: if the value is another
    object than at its last run, the callback calls [loadDiff] on it (unless
    it is [null]). What the callback does after [loadDiff] returns touches
    only the hunk list of the component. *)
Definition runWatcher (w : t) : t :=
  if same_object (selected w) (watched w) then w
  else
    let w1 := mk (store w) (selected w) (epoch w) (literals w) (selected w)
                 (issued w) (inflight w) (treeLoads w) (delivered w)
                 (showDirectoryPicker w) (mounted w) in
    match Store.selectedFile (store w), selected w with
    | Some file, Some r => loadDiff r file w1
    | _, _ => w1
    end.

(** What Vue does when a handler has returned: the render, then, when the
    main view is rendered, the watcher. *)
Definition flushWatcher (w : t) : t :=
  let w1 := render w in
  if mounted w1 then runWatcher w1 else w1.

(** What can happen to the application. [Toggle key] is a call of the toggle
    function of [useDiff] for [key]; the toolbar binds three of the four to
    buttons. [LoadFileTree] is [handleLoadDirs], or [initialize] when the
    arguments name two directories. [ShowPicker] is the button of the header
    of the main view. *)
Inductive Event : Type :=
| ClickTreeItem (pos : list nat)
| KeyJ
| KeyK
| Toggle (key : DiffOptions.key)
| LoadFileTree (leftDir rightDir : string)
| FileTreeSettled (reply : Settled FileTreeResult.t)
| GetDiffSettled (id : nat) (reply : Settled DiffResult.t)
| DeltaChecked (reply : Settled bool)
| ShowPicker.

(** An event can occur when the promise it settles is pending, and a click
    or a key of the main view when the main view is rendered. The functions
    of [useDiff] do not look at the view: a toggle is taken in every state,
    which includes the states where the toolbar offers it; so is
    [LoadFileTree], which [initialize] can reach after its two awaits
    whatever is rendered by then. *)
Definition enabled (e : Event) (w : t) : bool :=
  match e with
  | ClickTreeItem _ | KeyJ | KeyK | ShowPicker => mounted w
  | FileTreeSettled _ => negb (Nat.eqb (treeLoads w) 0)
  | GetDiffSettled id _ => existsb (Nat.eqb id) (inflight w)
  | Toggle _ | LoadFileTree _ _ | DeltaChecked _ => true
  end.

Definition handler (e : Event) : t -> t :=
  match e with
  | ClickTreeItem pos => clickTreeItem pos
  | KeyJ => selectNextFile
  | KeyK => selectPrevFile
  | Toggle key => toggle key
  | LoadFileTree l r => openDirectories l r
  | FileTreeSettled reply => fileTreeSettled reply
  | GetDiffSettled id reply => getDiffSettled id reply
  | DeltaChecked reply => deltaChecked reply
  | ShowPicker => handleShowPicker
  end.

(** One event: its handler runs to completion, then the render and the
    watcher. *)
Definition step (w : t) (e : Event) : option t :=
  if enabled e w then Some (flushWatcher (handler e w)) else None.

Fixpoint run (w : t) (trace : list Event) : option t :=
  match trace with
  | [] => Some w
  | e :: rest =>
      match step w e with
      | Some w' => run w' rest
      | None => None
      end
  end.

Definition reachable (w : t) : Prop := exists trace, run initial trace = Some w.

(** The [get_diff] calls made between [w] and a later [w']. *)
Definition issuedSince (w w' : t) : list UseDiff.request :=
  skipn (List.length (issued w)) (issued w').

(** [req] asks for the diff of the file selected in [s], with its paths. *)
Definition forSelection (s : Store.t) (req : UseDiff.request) : Prop :=
  Store.selectedFile s = Some (UseDiff.file req) /\
  UseDiff.leftPath req = FileEntry.left_path (UseDiff.file req) /\
  UseDiff.rightPath req = FileEntry.right_path (UseDiff.file req).

(** The file whose render produced the [DiffResult] on display. *)
Definition displayedFor (w : t) : option FileEntry.t :=
  match Store.currentDiff (store w), delivered w with
  | Some _, Some id => option_map UseDiff.file (nth_error (issued w) id)
  | _, _ => None
  end.

(** The diff on display, if any, was rendered for the selected file. *)
Definition displaysSelected (w : t) : Prop :=
  forall f, displayedFor w = Some f ->
    exists sel, Store.selectedFile (store w) = Some sel /\
                FileEntry.path f = FileEntry.path sel.

End App.

(* ------------------------------------------------------------------ *)
(** ** The properties, in the words of the specification *)

Module Spec.

(** *** Changed-file list *)

(** The nodes of a file tree in display order: a node, then, under a
    directory, the nodes of its children from first to last. *)
Fixpoint inOrder (node : FileTreeNode.t) : list FileTreeNode.t :=
  node :: (if FileTreeNode.is_dir node
           then flat_map inOrder (FileTreeNode.children node)
           else []).

(** The same walk through the children of every node, directory or not. *)
Fixpoint allNodes (node : FileTreeNode.t) : list FileTreeNode.t :=
  node :: flat_map allNodes (FileTreeNode.children node).

(** A node that is not a directory has no children. *)
Fixpoint filesAreLeaves (node : FileTreeNode.t) : bool :=
  if FileTreeNode.is_dir node
  then forallb filesAreLeaves (FileTreeNode.children node)
  else match FileTreeNode.children node with [] => true | _ :: _ => false end.

(** The entry of a node that is kept: not a directory, status not null. *)
Definition entryOf (node : FileTreeNode.t) : list FileEntry.t :=
  if FileTreeNode.is_dir node then []
  else match FileTreeNode.status node with
       | None => []
       | Some st =>
           [ FileEntry.mk (FileTreeNode.path node) (FileTreeNode.name node)
               (Changed st) false
               (FileTreeNode.left_path node) (FileTreeNode.right_path node) ]
       end.

Definition changedEntries (nodes : list FileTreeNode.t) : list FileEntry.t :=
  flat_map entryOf nodes.

(** *** Hunk starts *)

(** Line [i] is a separator, or a changed line that is the first line or
    comes right after a line that is not a changed line. *)
Definition startsHunk (allLines : list jsstring) (i : nat) : bool :=
  match nth_error allLines i with
  | None => false
  | Some html =>
      match DiffView.kind html with
      | DiffView.SeparatorLine => true
      | DiffView.ContextLine => false
      | DiffView.ChangedLine =>
          match i with
          | O => true
          | S j =>
              match nth_error allLines j with
              | Some prev => negb (DiffView.is_changed prev)
              | None => true
              end
          end
      end
  end.

Definition hunkStarts (allLines : list jsstring) : list nat :=
  filter (startsHunk allLines) (seq 0 (List.length allLines)).

(** The lines at positions [a], ..., [a + n - 1] are all changed lines. *)
Definition changeRun (allLines : list jsstring) (a n : nat) : Prop :=
  forall i, (a <= i < a + n)%nat ->
    exists html, nth_error allLines i = Some html /\ DiffView.is_changed html = true.

(** The same with the test of the scan alone: every line of the run passes
    [isChangedLine], whether or not it is a separator. *)
Definition backgroundRun (allLines : list jsstring) (a n : nat) : Prop :=
  forall i, (a <= i < a + n)%nat ->
    exists html, nth_error allLines i = Some html /\ DiffView.isChangedLine html = true.

(** The run cannot be extended upwards. *)
Definition runStartsAt (allLines : list jsstring) (a : nat) : Prop :=
  match a with
  | O => True
  | S j => forall prev, nth_error allLines j = Some prev ->
                        DiffView.is_changed prev = false
  end.

(** The hunk starts recorded inside the run. *)
Definition startsWithin (a n : nat) (hunks : list nat) : list nat :=
  filter (fun i => Nat.leb a i && Nat.ltb i (a + n)) hunks.

End Spec.

(** The actions of the store, as values. *)
Module Action.

Inductive t : Type :=
| SetDirectories (left right : string)
| SetFileTree (tree : list FileTreeNode.t) (fileList : list FileEntry.t)
              (total added deleted modified : Z)
| SelectFile (file : option FileEntry.t)
| SetDiff (result : DiffResult.t)
| SetDiffLoading (loading : bool)
| SetDiffError (error : string)
| SetTreeLoading (loading : bool)
| SetTreeError (error : string)
| SetViewOption (key : DiffOptions.key) (value : bool)
| ToggleViewOption (key : DiffOptions.key)
| SetDeltaInstalled (installed : bool)
| SelectPrevFile
| SelectNextFile
| SelectFirstFile.

Definition apply (a : t) : Store.t -> Store.t :=
  match a with
  | SetDirectories l r => Store.setDirectories l r
  | SetFileTree tree fileList total added deleted modified =>
      Store.setFileTree tree fileList total added deleted modified
  | SelectFile file => Store.selectFile file
  | SetDiff result => Store.setDiff result
  | SetDiffLoading loading => Store.setDiffLoading loading
  | SetDiffError error => Store.setDiffError error
  | SetTreeLoading loading => Store.setTreeLoading loading
  | SetTreeError error => Store.setTreeError error
  | SetViewOption key value => Store.setViewOption key value
  | ToggleViewOption key => Store.toggleViewOption key
  | SetDeltaInstalled installed => Store.setDeltaInstalled installed
  | SelectPrevFile => Store.selectPrevFile
  | SelectNextFile => Store.selectNextFile
  | SelectFirstFile => Store.selectFirstFile
  end.

Definition assignsFileTree (a : t) : bool :=
  match a with SetFileTree _ _ _ _ _ _ => true | _ => false end.

End Action.

(** What holds of the application between two events; [consistent] also
    holds between a handler and the render and watcher run after it. *)
Module Invariant.

Record consistent (w : App.t) : Prop := mkConsistent {
  selection_none :
    App.selected w = None <-> Store.selectedFile (App.store w) = None;
  selection_listed :
    forall e i, App.selected w = Some (App.Flattened e i) ->
      (e <= App.epoch w)%nat /\
      (e = App.epoch w ->
       nth_error (Store.changedFiles (App.store w)) i = Store.selectedFile (App.store w));
  selection_literal :
    forall n, App.selected w = Some (App.Literal n) -> (n < App.literals w)%nat;
  inflight_issued :
    forall id, In id (App.inflight w) -> (id < List.length (App.issued w))%nat
}.

Record holds (w : App.t) : Prop := mkHolds {
  is_consistent : consistent w;
  watcher_ran : App.mounted w = true -> App.watched w = App.selected w;
  is_rendered : App.mounted w = negb (App.showDirectoryPicker w)
}.

End Invariant.

(** A session with two changed files, used to run the definitions. *)
Module Session.

Definition nodeA : FileTreeNode.t :=
  FileTreeNode.mk "a.txt" "a.txt" (Some Modified) false []
    (Some "/left/a.txt") (Some "/right/a.txt").

Definition nodeB : FileTreeNode.t :=
  FileTreeNode.mk "b.txt" "b.txt" (Some Added) false []
    None (Some "/right/b.txt").

Definition fileA : FileEntry.t :=
  FileEntry.mk "a.txt" "a.txt" (Changed Modified) false
    (Some "/left/a.txt") (Some "/right/a.txt").

Definition fileB : FileEntry.t :=
  FileEntry.mk "b.txt" "b.txt" (Changed Added) false None (Some "/right/b.txt").

Definition treeResult : FileTreeResult.t :=
  FileTreeResult.mk [nodeA; nodeB] [fileA; fileB] 2 1 0 1.

Definition diffA : DiffResult.t :=
  DiffResult.mk "<pre>diff of a.txt</pre>" true 1 None None.

Definition diffB : DiffResult.t :=
  DiffResult.mk "<pre>diff of b.txt</pre>" true 1 None None.

(** The directories are loaded; [selectFirstFile] selects [a.txt], and the
    watcher issues call 0 for it. *)
Definition opened : list App.Event :=
  [ App.LoadFileTree "/left" "/right";
    App.FileTreeSettled (Fulfilled treeResult) ].

(** While call 0 is pending the user moves to [b.txt] (call 1); then call 0
    settles. *)
Definition superseded : list App.Event :=
  opened ++
  [ App.KeyJ;
    App.GetDiffSettled 0 (Fulfilled diffA) ].

(** The same, but call 1 settles first and call 0 last. *)
Definition overtaken : list App.Event :=
  opened ++
  [ App.KeyJ;
    App.GetDiffSettled 1 (Fulfilled diffB);
    App.GetDiffSettled 0 (Fulfilled diffA) ].

(** The render of [a.txt] has settled; then the user clicks [b.txt]. *)
Definition clicked : list App.Event :=
  opened ++
  [ App.GetDiffSettled 0 (Fulfilled diffA);
    App.ClickTreeItem [1%nat] ].

(** The same, with the key [j] instead of the click. *)
Definition keyed : list App.Event :=
  opened ++
  [ App.GetDiffSettled 0 (Fulfilled diffA);
    App.KeyJ ].

(** The state a trace leads to. *)
Definition after (trace : list App.Event) : App.t :=
  match App.run App.initial trace with
  | Some w => w
  | None => App.initial
  end.

(** The two events of [clicked] and [keyed] that [opened] lacks. *)
Definition rendered : list App.Event :=
  opened ++ [ App.GetDiffSettled 0 (Fulfilled diffA) ].

(** The directories are opened and, while their tree is pending, the user
    goes back to the picker. *)
Definition pickerShown : list App.Event :=
  [ App.LoadFileTree "/left" "/right"; App.ShowPicker ].

(** Three lines with a background; the one in the middle also has the dashes
    of a separator. *)
Definition dashedLines : list jsstring :=
  [ lit "<span style='background-color:#3f0001'>old</span>";
    lit "<span style='background-color:#3f0001'>" ++
      [DiffView.dash; DiffView.dash; DiffView.dash] ++ lit "</span>";
    lit "<span style='background-color:#002800'>new</span>" ].

(** Rendered lines: context, two changed lines, a separator, a changed line. *)
Definition lines : list jsstring :=
  [ lit "<span>unchanged</span>";
    lit "<span style='background-color:#3f0001'>old</span>";
    lit "<span style='background-color:#002800'>new</span>";
    [DiffView.dash; DiffView.dash; DiffView.dash; DiffView.dash];
    lit "<span style='background-color:#002800'>more</span>" ].

End Session.

(* ------------------------------------------------------------------ *)
(** ** Hunk navigation of [DiffView.vue] *)

Module HunkNav.

(** [scrollToHunk(index)]: the refs afterwards, and the line element that
    [scrollIntoView] was called on, if any. *)
Definition scrollToHunk (index : Z) (v : DiffView.t) : DiffView.t * option nat :=
  match DiffView.hunkElements v with
  | Some hunks =>
      if (index >=? 0) && (index <? Z.of_nat (List.length hunks))
      then (DiffView.mk (Some hunks) index, at_index hunks index)
      else (v, None)
  | None => (v, None)
  end.

Definition nextHunk (v : DiffView.t) : DiffView.t * option nat :=
  match DiffView.hunkElements v with
  | Some hunks =>
      if DiffView.currentHunkIndex v <? Z.of_nat (List.length hunks) - 1
      then scrollToHunk (DiffView.currentHunkIndex v + 1) v
      else (v, None)
  | None => (v, None)
  end.

Definition prevHunk (v : DiffView.t) : DiffView.t * option nat :=
  match DiffView.hunkElements v with
  | Some hunks =>
      if DiffView.currentHunkIndex v >? 0
      then scrollToHunk (DiffView.currentHunkIndex v - 1) v
      else (v, None)
  | None => (v, None)
  end.

(** The end of the watcher on [store.selectedFile], once [loadDiff] has
    returned and the view is rendered: [findHunks(); currentHunkIndex = 0]. *)
Definition fileLoaded (diffContainer : option (list jsstring)) (v : DiffView.t)
  : DiffView.t :=
  DiffView.mk (DiffView.hunkElements (DiffView.findHunks diffContainer v)) 0.

(** The key for the next hunk pressed [k] times. *)
Definition pressNext (k : nat) (v : DiffView.t) : DiffView.t :=
  Nat.iter k (fun x => fst (nextHunk x)) v.

End HunkNav.

(* ------------------------------------------------------------------ *)
(** ** Start of the application ([useDiff.ts], [App.vue]) *)

Module Startup.

(** [getAppArgs] from the point where [invoke('get_app_args')] settles as
    [reply]. *)
Definition getAppArgs (reply : Settled (list string)) : UseDiff.Async (list string) :=
  UseDiff.try_catch
    (UseDiff.bind (UseDiff.await reply) (fun args => UseDiff.ret args))
    (fun _ => UseDiff.ret []).

(** The refs of [App.vue]. *)
Record t : Type := mk {
  leftDirInput : string;
  rightDirInput : string;
  showDirectoryPicker : bool
}.

Definition initial : t := mk EmptyString EmptyString true.

(** A string in a condition: only the empty string is false. *)
Definition truthy (s : string) : bool :=
  match s with EmptyString => false | String _ _ => true end.

(** How far a handler of [App.vue] has come when it first waits for
    [get_file_tree]: it has returned, or it waits for the tree of the two
    directories, or an awaited call has thrown. *)
Inductive progress : Type :=
| Returned
| AwaitsTree (leftDir rightDir : string)
| Threw (reason : string).

(** [handleLoadDirs] up to the [await] inside [loadFileTree]. *)
Definition handleLoadDirs (c : t) (s : Store.t) : t * Store.t * progress :=
  if truthy (leftDirInput c) && truthy (rightDirInput c) then
    (mk (leftDirInput c) (rightDirInput c) false,
     UseDiff.loadFileTree_begin (leftDirInput c) (rightDirInput c) s,
     AwaitsTree (leftDirInput c) (rightDirInput c))
  else (c, s, Returned).

Definition handleShowPicker (c : t) : t :=
  mk (leftDirInput c) (rightDirInput c) true.

(** [initialize] up to the [await] inside [loadFileTree]; [delta] and [args]
    are what [check_delta] and [get_app_args] settle as. *)
Definition initialize (delta : Settled bool) (args : Settled (list string))
  (c : t) (s : Store.t) : t * Store.t * progress :=
  match UseDiff.checkDeltaInstalled delta s with
  | (s1, Rejected e) => (c, s1, Threw e)
  | (s1, Fulfilled _) =>
      match getAppArgs args s1 with
      | (s2, Rejected e) => (c, s2, Threw e)
      | (s2, Fulfilled argv) =>
          if Z.of_nat (List.length argv) >=? 3 then
            match at_index argv 1, at_index argv 2 with
            | Some leftDir, Some rightDir =>
                if truthy leftDir && truthy rightDir then
                  (mk leftDir rightDir false,
                   UseDiff.loadFileTree_begin leftDir rightDir s2,
                   AwaitsTree leftDir rightDir)
                else (c, s2, Returned)
            | _, _ => (c, s2, Returned)
            end
          else (c, s2, Returned)
      end
  end.

End Startup.

(* ------------------------------------------------------------------ *)
(** * Properties *)

(** ** Strings and arrays *)

Lemma startsWith_spec (search s : jsstring) :
  startsWith s search = true <-> exists rest, s = search ++ rest.
Proof.
  revert s. induction search as [|c search IH]; intros s; simpl.
  - split; [intros _; now exists s | reflexivity].
  - destruct s as [|d s]; simpl.
    + split; [discriminate | intros [rest H]; discriminate].
    + rewrite andb_true_iff, N.eqb_eq, IH. split.
      * intros [-> [rest ->]]. now exists rest.
      * intros [rest H]. injection H as -> ->. split; [reflexivity | now exists rest].
Qed.

Lemma includes_spec (s search : jsstring) :
  includes s search = true <-> exists before rest, s = before ++ search ++ rest.
Proof.
  induction s as [|d s IH]; simpl.
  - rewrite orb_false_r, startsWith_spec. split.
    + intros [rest H]. now exists [], rest.
    + intros [before [rest H]]. destruct before; [now exists rest |].
      discriminate.
  - rewrite orb_true_iff, startsWith_spec, IH. split.
    + intros [[rest H] | [before [rest H]]].
      * now exists [], rest.
      * exists (d :: before), rest. simpl. now rewrite H.
    + intros [[|b before] [rest H]].
      * left. now exists rest.
      * right. injection H as _ H. now exists before, rest.
Qed.

Lemma findIndexFrom_none {A : Type} (p : A -> bool) (l : list A) (k : Z) :
  (forall x, In x l -> p x = false) -> findIndexFrom p l k = -1.
Proof.
  revert k. induction l as [|x l IH]; intros k H; simpl; [reflexivity |].
  rewrite (H x (or_introl eq_refl)). apply IH. intros y Hy. apply H. now right.
Qed.

Lemma findIndexFrom_range {A : Type} (p : A -> bool) (l : list A) (k : Z) :
  findIndexFrom p l k = -1 \/
  k <= findIndexFrom p l k < k + Z.of_nat (List.length l).
Proof.
  revert k. induction l as [|x l IH]; intros k; simpl; [now left |].
  destruct (p x); [right; lia |].
  destruct (IH (k + 1)) as [H | H]; [now left | right; lia].
Qed.

Lemma findIndex_range {A : Type} (p : A -> bool) (l : list A) :
  -1 <= findIndex p l < Z.of_nat (List.length l).
Proof.
  unfold findIndex. destruct (findIndexFrom_range p l 0) as [H | H]; lia.
Qed.

Lemma at_index_in_range {A : Type} (l : list A) (i : Z) :
  0 <= i < Z.of_nat (List.length l) -> exists x, at_index l i = Some x.
Proof.
  intros H. unfold at_index. destruct (Z.ltb_spec i 0); [lia |].
  destruct (nth_error l (Z.to_nat i)) eqn:E; [now exists a |].
  apply nth_error_None in E. lia.
Qed.

(** ** The store *)

Lemma currentFileIndex_range (s : Store.t) :
  -1 <= Store.currentFileIndex s < Z.of_nat (List.length (Store.changedFiles s)).
Proof.
  unfold Store.currentFileIndex. destruct (Store.selectedFile s).
  - apply findIndex_range.
  - lia.
Qed.

Lemma store_eta (s : Store.t) :
  Store.mk (Store.leftDir s) (Store.rightDir s) (Store.fileTree s) (Store.files s)
    (Store.totalChanges s) (Store.addedCount s) (Store.deletedCount s)
    (Store.modifiedCount s) (Store.selectedFile s) (Store.currentDiff s)
    (Store.isLoadingDiff s) (Store.diffError s) (Store.viewOptions s)
    (Store.deltaInstalled s) (Store.isLoadingTree s) (Store.treeError s) = s.
Proof. now destruct s. Qed.

(** C9. [toggleViewOption] is an involution that touches only the named
    field: calling it twice with one key gives back the store it started
    from, and one call negates the option of that key and leaves the other
    three options as they were. *)
Theorem toggleViewOption_involution (s : Store.t) (key : DiffOptions.key) :
  Store.toggleViewOption key (Store.toggleViewOption key s) = s /\
  forall k : DiffOptions.key,
    DiffOptions.get k (Store.viewOptions (Store.toggleViewOption key s)) =
    if DiffOptions.key_eqb key k
    then negb (DiffOptions.get k (Store.viewOptions s))
    else DiffOptions.get k (Store.viewOptions s).
Proof.
  split.
  - destruct s as [? ? ? ? ? ? ? ? ? ? ? ? [a b c d] ? ? ?].
    destruct key; unfold Store.toggleViewOption; simpl;
      now rewrite negb_involutive.
  - intros k. destruct key, k; reflexivity.
Qed.

(** C10. When no file is selected, or the path of the selected file is not
    the path of any changed file, [currentFileIndex] is -1; then
    [selectNextFile] selects the first changed file when there is one, and
    [selectPrevFile] changes nothing. *)
Theorem navigation_without_current_index (s : Store.t) :
  (Store.selectedFile s = None \/
   exists sel, Store.selectedFile s = Some sel /\
     ~ In (FileEntry.path sel) (map FileEntry.path (Store.changedFiles s))) ->
  Store.currentFileIndex s = -1 /\
  (forall first rest, Store.changedFiles s = first :: rest ->
     Store.selectedFile (Store.selectNextFile s) = Some first) /\
  Store.selectPrevFile s = s.
Proof.
  intros H.
  assert (Hidx : Store.currentFileIndex s = -1).
  { unfold Store.currentFileIndex. destruct H as [-> | [sel [-> Hnot]]]; [reflexivity |].
    apply findIndexFrom_none. intros f Hf.
    apply String.eqb_neq. intros Heq. apply Hnot. rewrite <- Heq.
    now apply in_map. }
  split; [exact Hidx | split].
  - intros first rest Hlist. unfold Store.selectNextFile, Store.canGoNext.
    rewrite Hidx, Hlist.
    destruct (Z.ltb_spec (-1) (Z.of_nat (List.length (first :: rest)) - 1)) as [_ | Hge];
      [reflexivity | simpl List.length in Hge; lia].
  - unfold Store.selectPrevFile, Store.canGoPrev. now rewrite Hidx.
Qed.

Lemma navigation_without_current_index_witness :
  let s := Store.set_fileTree
             [FileTreeNode.mk "a.txt" "a.txt" (Some Modified) false [] (Some "/l/a.txt")
                (Some "/r/a.txt")]
             Store.initial in
  Store.currentFileIndex s = -1 /\
  (forall first rest, Store.changedFiles s = first :: rest ->
     Store.selectedFile (Store.selectNextFile s) = Some first) /\
  Store.selectPrevFile s = s.
Proof.
  intros s. apply (navigation_without_current_index s). left. reflexivity.
Defined.

(** ** The composable *)

(** C8. Whatever the outcome of [invoke('check_delta')] -- a boolean
    ([false] when the tool is absent) or a rejection -- [checkDeltaInstalled]
    returns a boolean and throws nothing; it returns [false] when the
    answer is [false] or the call is rejected; and [deltaInstalled] holds the
    returned value afterwards, the rest of the store being untouched. *)
Theorem checkDeltaInstalled_total (reply : Settled bool) (s : Store.t) :
  let b := match reply with Fulfilled installed => installed | Rejected _ => false end in
  UseDiff.checkDeltaInstalled reply s = (Store.setDeltaInstalled b s, Fulfilled b) /\
  Store.deltaInstalled (fst (UseDiff.checkDeltaInstalled reply s)) = b.
Proof.
  destruct reply as [installed | reason]; simpl; split; reflexivity.
Qed.

(** ** The changed-file list *)

(** Induction on a file tree node, with the property for its children. *)
Lemma node_induction (P : FileTreeNode.t -> Prop) :
  (forall node, Forall P (FileTreeNode.children node) -> P node) ->
  forall node, P node.
Proof.
  intros step. fix IH 1. intros [nm p st d ch l r]. apply step. simpl.
  induction ch as [|c ch IHch]; constructor; [apply IH | exact IHch].
Qed.

Lemma changedEntries_app (l1 l2 : list FileTreeNode.t) :
  Spec.changedEntries (l1 ++ l2) = Spec.changedEntries l1 ++ Spec.changedEntries l2.
Proof. apply flat_map_app. Qed.

Lemma flatten_loop (nodes : list FileTreeNode.t) :
  Forall (fun node => forall result,
            Store.flattenNode node result =
            result ++ Spec.changedEntries (Spec.inOrder node)) nodes ->
  forall result,
    fold_left (fun r n => Store.flattenNode n r) nodes result =
    result ++ Spec.changedEntries (flat_map Spec.inOrder nodes).
Proof.
  induction 1 as [|node nodes Hnode _ IH]; intros result; simpl.
  - now rewrite app_nil_r.
  - rewrite IH, Hnode, changedEntries_app. now rewrite app_assoc.
Qed.

Lemma flattenNode_inOrder (node : FileTreeNode.t) (result : list FileEntry.t) :
  Store.flattenNode node result = result ++ Spec.changedEntries (Spec.inOrder node).
Proof.
  revert result. induction node as [node IH] using node_induction. intros result.
  destruct node as [nm p st d ch l r]. simpl in *.
  unfold Spec.entryOf. simpl. destruct d.
  - now rewrite (flatten_loop _ IH).
  - destruct st; simpl; [reflexivity | now rewrite app_nil_r].
Qed.

Lemma flattenTree_inOrder (nodes : list FileTreeNode.t) :
  Store.flattenTree nodes = Spec.changedEntries (flat_map Spec.inOrder nodes).
Proof.
  unfold Store.flattenTree. rewrite flatten_loop; [reflexivity |].
  apply Forall_forall. intros node _ result. apply flattenNode_inOrder.
Qed.

Lemma inOrder_allNodes (node : FileTreeNode.t) :
  Spec.filesAreLeaves node = true -> Spec.inOrder node = Spec.allNodes node.
Proof.
  induction node as [node IH] using node_induction.
  destruct node as [nm p st d ch l r]. simpl in *. intros Hleaves. f_equal.
  destruct d.
  - induction ch as [|c ch IHch]; [reflexivity |]. simpl in *.
    apply andb_true_iff in Hleaves as [Hc Hch]. inversion IH as [|? ? IHc IHrest]; subst.
    now rewrite IHc, IHch.
  - now destruct ch.
Qed.

Lemma apply_keeps_fileTree (a : Action.t) (s : Store.t) :
  Action.assignsFileTree a = false ->
  Store.fileTree (Action.apply a s) = Store.fileTree s.
Proof.
  destruct a; simpl; intros H; try discriminate; try reflexivity.
  - unfold Store.selectPrevFile. now destruct (Store.canGoPrev s).
  - unfold Store.selectNextFile. now destruct (Store.canGoNext s).
  - unfold Store.selectFirstFile.
    now destruct (Z.of_nat (List.length (Store.changedFiles s)) >? 0).
Qed.

(** C5. [changedFiles] is the in-order flattening of the current file tree
    (a walk through the directories) keeping the nodes that are not
    directories and whose status is not null, each as the [FileEntry] with
    the same path, name, status, left_path and right_path; when no file node
    has children this is the walk through every node of the tree. It is
    computed from [fileTree] alone: an action changes it only by assigning
    [fileTree], and then it is the flattening of the new tree. *)
Theorem changedFiles_is_flattening (s : Store.t) :
  Store.changedFiles s =
    Spec.changedEntries (flat_map Spec.inOrder (Store.fileTree s)) /\
  (forallb Spec.filesAreLeaves (Store.fileTree s) = true ->
   Store.changedFiles s =
     Spec.changedEntries (flat_map Spec.allNodes (Store.fileTree s))) /\
  (forall a : Action.t,
     Store.changedFiles (Action.apply a s) =
     match a with
     | Action.SetFileTree tree _ _ _ _ _ =>
         Spec.changedEntries (flat_map Spec.inOrder tree)
     | _ => Store.changedFiles s
     end).
Proof.
  split; [apply flattenTree_inOrder | split].
  - intros Hleaves. unfold Store.changedFiles. rewrite flattenTree_inOrder.
    f_equal. induction (Store.fileTree s) as [|node nodes IH]; [reflexivity |].
    simpl in *. apply andb_true_iff in Hleaves as [Hn Hrest].
    now rewrite (inOrder_allNodes _ Hn), IH.
  - intros a. unfold Store.changedFiles.
    destruct (Action.assignsFileTree a) eqn:E.
    + destruct a; try discriminate. simpl. apply flattenTree_inOrder.
    + rewrite (apply_keeps_fileTree _ _ E). now destruct a.
Qed.

Lemma changedFiles_is_flattening_witness :
  let file := FileTreeNode.mk "b.txt" "src/b.txt" (Some Added) false [] None
                (Some "/r/src/b.txt") in
  let s := Store.set_fileTree
             [FileTreeNode.mk "src" "src" (Some Modified) true [file] None None]
             Store.initial in
  Store.changedFiles s =
    Spec.changedEntries (flat_map Spec.allNodes (Store.fileTree s)).
Proof.
  intros file s.
  apply (proj1 (proj2 (changedFiles_is_flattening s))). reflexivity.
Defined.

(** ** The hunk scan *)

Lemma forEachFrom_app (l1 l2 : list jsstring) (index : nat) (st : DiffView.scan) :
  DiffView.forEachFrom (l1 ++ l2) index st =
  DiffView.forEachFrom l2 (index + List.length l1) (DiffView.forEachFrom l1 index st).
Proof.
  revert index st. induction l1 as [|html l1 IH]; intros index st; simpl.
  - now rewrite Nat.add_0_r.
  - rewrite IH. f_equal. lia.
Qed.

Lemma startsHunk_app_old (l : list jsstring) (html : jsstring) (i : nat) :
  (i < List.length l)%nat ->
  Spec.startsHunk (l ++ [html]) i = Spec.startsHunk l i.
Proof.
  intros Hi. unfold Spec.startsHunk. rewrite nth_error_app1 by exact Hi.
  destruct (nth_error l i) as [h|]; [| reflexivity].
  destruct (DiffView.kind h); try reflexivity.
  destruct i as [|j]; [reflexivity |]. now rewrite nth_error_app1 by lia.
Qed.

Lemma hunkStarts_snoc (l : list jsstring) (html : jsstring) :
  Spec.hunkStarts (l ++ [html]) =
  Spec.hunkStarts l ++
  (if Spec.startsHunk (l ++ [html]) (List.length l) then [List.length l] else []).
Proof.
  unfold Spec.hunkStarts. rewrite length_app. simpl List.length.
  rewrite seq_app, filter_app. simpl. f_equal.
  apply filter_ext_in. intros i Hi. apply in_seq in Hi.
  apply startsHunk_app_old. lia.
Qed.

Lemma startsHunk_last (l : list jsstring) (html : jsstring) :
  Spec.startsHunk (l ++ [html]) (List.length l) =
  match DiffView.kind html with
  | DiffView.SeparatorLine => true
  | DiffView.ContextLine => false
  | DiffView.ChangedLine => negb (DiffView.endsInChange l)
  end.
Proof.
  unfold Spec.startsHunk, DiffView.endsInChange.
  rewrite nth_error_app2 by lia. rewrite Nat.sub_diag. simpl.
  destruct (DiffView.kind html); try reflexivity.
  destruct (List.length l) as [|j] eqn:E; [reflexivity |].
  rewrite nth_error_app1 by lia.
  destruct (nth_error l j) eqn:N; [reflexivity |].
  apply nth_error_None in N. lia.
Qed.

Lemma endsInChange_snoc (l : list jsstring) (html : jsstring) :
  DiffView.endsInChange (l ++ [html]) = DiffView.is_changed html.
Proof.
  unfold DiffView.endsInChange. rewrite length_app. simpl List.length.
  rewrite Nat.add_1_r. rewrite nth_error_app2 by lia. now rewrite Nat.sub_diag.
Qed.

(** The state of the loop after any number of lines. *)
Lemma forEach_state (allLines : list jsstring) :
  DiffView.forEachFrom allLines 0%nat (DiffView.mkScan [] false) =
  DiffView.mkScan (Spec.hunkStarts allLines) (DiffView.endsInChange allLines).
Proof.
  induction allLines as [|html l IH] using rev_ind; [reflexivity |].
  rewrite forEachFrom_app, IH. simpl DiffView.forEachFrom.
  rewrite hunkStarts_snoc, startsHunk_last, endsInChange_snoc.
  unfold DiffView.scanLine, DiffView.is_changed, DiffView.kind. simpl.
  destruct (DiffView.isHunkSep html); [reflexivity |].
  destruct (DiffView.isChangedLine html); simpl.
  - destruct (DiffView.endsInChange l) eqn:E; simpl; [| reflexivity].
    now rewrite app_nil_r.
  - now rewrite app_nil_r.
Qed.

Lemma scanLines_hunkStarts (allLines : list jsstring) :
  DiffView.scanLines allLines = Spec.hunkStarts allLines.
Proof. unfold DiffView.scanLines. now rewrite forEach_state. Qed.

Lemma filter_at_most_one (f : nat -> bool) (a : nat) (l : list nat) :
  NoDup l -> (forall i, In i l -> f i = true -> i = a) ->
  (List.length (filter f l) <= 1)%nat /\
  (In a l -> f a = true -> List.length (filter f l) = 1%nat).
Proof.
  induction 1 as [|x l Hx Hnd IH]; intros Honly; simpl.
  - split; [lia | contradiction].
  - destruct IH as [IHle IHeq]; [intros i Hi; apply Honly; now right |].
    destruct (f x) eqn:Fx; simpl.
    + assert (x = a) by (apply Honly; [now left | exact Fx]). subst x.
      assert (Hnone : filter f l = []).
      { destruct (filter f l) as [|y ys] eqn:E; [reflexivity |].
        assert (Hy : In y (filter f l)) by (rewrite E; now left).
        apply filter_In in Hy as [Hy Fy].
        assert (y = a) by (apply Honly; [now right | exact Fy]). now subst y. }
      rewrite Hnone. simpl. split; [lia | reflexivity].
    + split; [exact IHle |]. intros [-> | Ha] Fa; [congruence | now apply IHeq].
Qed.

Lemma startsWithin_hunkStarts (allLines : list jsstring) (a n : nat) :
  Spec.startsWithin a n (Spec.hunkStarts allLines) =
  filter (fun i => (Nat.leb a i && Nat.ltb i (a + n)) && Spec.startsHunk allLines i)
         (seq 0 (List.length allLines)).
Proof.
  unfold Spec.startsWithin, Spec.hunkStarts.
  induction (seq 0 (List.length allLines)) as [|x l IH]; [reflexivity |]. simpl.
  destruct (Spec.startsHunk allLines x); simpl.
  - rewrite IH, andb_true_r. reflexivity.
  - now rewrite IH, andb_false_r.
Qed.

(** C2, as the code has it. A line that passes the separator test is a
    separator even when it also passes the changed-line test; a changed line
    is a line that passes the changed-line test only. The scan records a
    hunk start exactly at every separator line and at every changed line
    that is the first line or follows a line that is not a changed line (a
    context line or a separator), in line order, each once. So a run of
    consecutive changed lines holds at most one hunk start, and exactly one,
    its first line, when the line before it is not a changed line. *)
Theorem findHunks_records_transitions (allLines : list jsstring) :
  DiffView.scanLines allLines = Spec.hunkStarts allLines /\
  (forall a n, Spec.changeRun allLines a n ->
     (List.length (Spec.startsWithin a n (DiffView.scanLines allLines)) <= 1)%nat) /\
  (forall a n, (0 < n)%nat -> Spec.changeRun allLines a n ->
     Spec.runStartsAt allLines a ->
     Spec.startsWithin a n (DiffView.scanLines allLines) = [a]).
Proof.
  assert (Honly : forall a n, Spec.changeRun allLines a n ->
            forall i, In i (seq 0 (List.length allLines)) ->
              (Nat.leb a i && Nat.ltb i (a + n)) && Spec.startsHunk allLines i = true ->
              i = a).
  { intros a n Hrun i _ Hi.
    apply andb_true_iff in Hi as [Hin Hstart].
    apply andb_true_iff in Hin as [Hl Hr].
    apply Nat.leb_le in Hl. apply Nat.ltb_lt in Hr.
    destruct (Nat.eq_dec i a) as [-> | Hne]; [reflexivity | exfalso].
    destruct i as [|j]; [lia |].
    destruct (Hrun (S j)) as [html [Hnth Hch]]; [lia |].
    destruct (Hrun j) as [prev [Hprev Hpch]]; [lia |].
    unfold Spec.startsHunk in Hstart. rewrite Hnth, Hprev, Hpch in Hstart.
    unfold DiffView.is_changed in Hch.
    destruct (DiffView.kind html); discriminate. }
  split; [apply scanLines_hunkStarts | split].
  - intros a n Hrun. rewrite scanLines_hunkStarts, startsWithin_hunkStarts.
    apply (filter_at_most_one _ a _ (seq_NoDup _ _) (Honly a n Hrun)).
  - intros a n Hn Hrun Hfirst.
    rewrite scanLines_hunkStarts, startsWithin_hunkStarts.
    destruct (Hrun a) as [html [Hnth Hch]]; [lia |].
    assert (Hlt : (a < List.length allLines)%nat).
    { apply nth_error_Some. now rewrite Hnth. }
    assert (Hin : In a (seq 0 (List.length allLines))) by (apply in_seq; lia).
    assert (Hstart : (Nat.leb a a && Nat.ltb a (a + n)) && Spec.startsHunk allLines a = true).
    { rewrite Nat.leb_refl. simpl.
      replace (Nat.ltb a (a + n)) with true
        by (symmetry; apply Nat.ltb_lt; lia). simpl.
      unfold Spec.startsHunk. rewrite Hnth.
      unfold DiffView.is_changed in Hch.
      destruct (DiffView.kind html); try discriminate.
      destruct a as [|j]; [reflexivity |]. simpl in Hfirst.
      destruct (nth_error allLines j) as [prev|]; [| reflexivity].
      now rewrite (Hfirst prev eq_refl). }
    destruct (filter_at_most_one _ a _ (seq_NoDup (List.length allLines) 0)
                (Honly a n Hrun)) as [_ Hone].
    specialize (Hone Hin Hstart).
    remember (filter _ _) as found eqn:Efound.
    destruct found as [|x [|y ys]]; try discriminate.
    assert (Hx : In x (filter (fun i => (Nat.leb a i && Nat.ltb i (a + n))
                                        && Spec.startsHunk allLines i)
                              (seq 0 (List.length allLines))))
      by (rewrite <- Efound; now left).
    apply filter_In in Hx as [Hx Fx].
    now rewrite (Honly a n Hrun x Hx Fx).
Qed.

Lemma findHunks_records_transitions_witness :
  Spec.startsWithin 1 2 (DiffView.scanLines Session.lines) = [1%nat].
Proof.
  apply (proj2 (proj2 (findHunks_records_transitions Session.lines)) 1%nat 2%nat).
  - lia.
  - intros i Hi.
    assert (Hcases : i = 1%nat \/ i = 2%nat) by lia.
    destruct Hcases as [-> | ->]; eexists; split; reflexivity.
  - intros prev Hprev. injection Hprev as <-. reflexivity.
Defined.

(** C2, the claim: a run of consecutive lines that pass the changed-line
    test holds at most one hunk start. It fails on [Session.dashedLines]:
    the three lines have a background, the second has the dashes of a
    separator too, and the scan records a start at each of them. *)
Lemma separator_splits_background_run :
  Spec.backgroundRun Session.dashedLines 0 3 /\
  DiffView.scanLines Session.dashedLines = [0%nat; 1%nat; 2%nat] /\
  ~ (forall allLines a n, Spec.backgroundRun allLines a n ->
       (List.length (Spec.startsWithin a n (DiffView.scanLines allLines)) <= 1)%nat).
Proof.
  assert (Hrun : Spec.backgroundRun Session.dashedLines 0 3).
  { intros i Hi.
    assert (Hcases : i = 0%nat \/ i = 1%nat \/ i = 2%nat) by lia.
    destruct Hcases as [-> | [-> | ->]]; eexists; split; reflexivity. }
  split; [exact Hrun | split; [vm_compute; reflexivity |]].
  intros Hclaim.
  specialize (Hclaim Session.dashedLines 0%nat 3%nat Hrun).
  vm_compute in Hclaim. lia.
Qed.

Lemma filter_none {A : Type} (f : A -> bool) (l : list A) :
  (forall x, In x l -> f x = false) -> filter f l = [].
Proof.
  induction l as [|x l IH]; intros H; simpl; [reflexivity |].
  rewrite (H x (or_introl eq_refl)). apply IH. intros y Hy. apply H. now right.
Qed.

(** C7. For lines none of which is a separator or a changed line, the scan
    records no hunk: its list of hunks is empty, and [findHunks] leaves
    [hunkElements] null. *)
Theorem findHunks_without_changes (allLines : list jsstring) (v : DiffView.t) :
  (forall html, In html allLines ->
     DiffView.isHunkSep html = false /\ DiffView.isChangedLine html = false) ->
  DiffView.scanLines allLines = [] /\
  DiffView.hunkElements (DiffView.findHunks (Some allLines) v) = None.
Proof.
  intros Hcontext.
  assert (Hnone : DiffView.scanLines allLines = []).
  { rewrite scanLines_hunkStarts. apply filter_none. intros i _.
    unfold Spec.startsHunk. destruct (nth_error allLines i) as [html|] eqn:E;
      [| reflexivity].
    destruct (Hcontext html (nth_error_In _ _ E)) as [Hsep Hch].
    unfold DiffView.kind. now rewrite Hsep, Hch. }
  split; [exact Hnone |]. simpl. now rewrite Hnone.
Qed.

Lemma findHunks_without_changes_witness :
  DiffView.scanLines [lit "<span>one</span>"; lit "<span>two</span>"] = [] /\
  DiffView.hunkElements
    (DiffView.findHunks (Some [lit "<span>one</span>"; lit "<span>two</span>"])
       (DiffView.mk (Some [0%nat]) 0)) = None.
Proof.
  apply findHunks_without_changes.
  intros html [<- | [<- | []]]; split; reflexivity.
Defined.

(** ** The running application *)

Lemma ref_eqb_eq (a b : App.ObjRef) : App.ref_eqb a b = true <-> a = b.
Proof.
  destruct a as [n | e i], b as [m | e' i']; simpl.
  - rewrite Nat.eqb_eq. split; congruence.
  - split; discriminate.
  - split; discriminate.
  - rewrite andb_true_iff, !Nat.eqb_eq. split; [intros [-> ->] | intros H; injection H]; auto.
Qed.

Lemma same_object_eq (a b : option App.ObjRef) :
  App.same_object a b = true <-> a = b.
Proof.
  destruct a as [x|], b as [y|]; simpl.
  - rewrite ref_eqb_eq. split; congruence.
  - split; discriminate.
  - split; discriminate.
  - split; reflexivity.
Qed.

Lemma same_object_refl (a : option App.ObjRef) : App.same_object a a = true.
Proof. now apply same_object_eq. Qed.

(** Reads a field of an application state that is given field by field. *)
Ltac fields :=
  cbn [App.store App.selected App.epoch App.literals App.watched App.issued
       App.inflight App.treeLoads App.delivered App.showDirectoryPicker App.mounted].

Lemma app_eta (w : App.t) :
  App.mk (App.store w) (App.selected w) (App.epoch w) (App.literals w) (App.watched w)
    (App.issued w) (App.inflight w) (App.treeLoads w) (App.delivered w)
    (App.showDirectoryPicker w) (App.mounted w) = w.
Proof. now destruct w. Qed.

(** [loadDiff] on an object that is what its reference says. *)
Lemma loadDiff_consistent (r : App.ObjRef) (file : FileEntry.t) (w : App.t) :
  (forall e i, r = App.Flattened e i ->
     (e <= App.epoch w)%nat /\
     (e = App.epoch w ->
      nth_error (Store.changedFiles (App.store w)) i = Some file)) ->
  (forall n, r = App.Literal n -> (n < App.literals w)%nat) ->
  (forall id, In id (App.inflight w) -> (id < List.length (App.issued w))%nat) ->
  Invariant.consistent (App.loadDiff r file w).
Proof.
  intros Hlisted Hliteral Hinflight. unfold App.loadDiff. cbn.
  constructor; cbn.
  - split; discriminate.
  - intros e i H. injection H as ->. exact (Hlisted e i eq_refl).
  - intros n H. injection H as ->. exact (Hliteral n eq_refl).
  - intros id H. rewrite length_app. simpl. apply in_app_or in H as [H | [<- | []]].
    + specialize (Hinflight id H). lia.
    + lia.
Qed.

(** A handler that leaves the selection, the tree and the calls alone. *)
Lemma consistent_frame (w : App.t) (s' : Store.t) (watched' : option App.ObjRef)
  (inflight' : list nat) (treeLoads' : nat) (delivered' : option nat)
  (picker' mounted' : bool) :
  Invariant.consistent w ->
  Store.selectedFile s' = Store.selectedFile (App.store w) ->
  Store.fileTree s' = Store.fileTree (App.store w) ->
  (forall id, In id inflight' -> In id (App.inflight w)) ->
  Invariant.consistent
    (App.mk s' (App.selected w) (App.epoch w) (App.literals w) watched'
       (App.issued w) inflight' treeLoads' delivered' picker' mounted').
Proof.
  intros C Hsel Htree Hin.
  constructor; cbn; unfold Store.changedFiles; rewrite ?Hsel, ?Htree.
  - exact (Invariant.selection_none _ C).
  - exact (Invariant.selection_listed _ C).
  - exact (Invariant.selection_literal _ C).
  - intros id H. exact (Invariant.inflight_issued _ C id (Hin id H)).
Qed.

(** [loadDiff] on the selected file. *)
Lemma reload_consistent (w : App.t) (r : App.ObjRef) (file : FileEntry.t) :
  Invariant.consistent w ->
  App.selected w = Some r -> Store.selectedFile (App.store w) = Some file ->
  Invariant.consistent (App.loadDiff r file w).
Proof.
  intros C Er Ef. apply loadDiff_consistent.
  - intros e i ->. destruct (Invariant.selection_listed _ C e i Er) as [Hle Hnth].
    split; [exact Hle |]. intros He. rewrite (Hnth He). exact Ef.
  - intros n ->. exact (Invariant.selection_literal _ C n Er).
  - exact (Invariant.inflight_issued _ C).
Qed.

Lemma render_consistent (w : App.t) :
  Invariant.consistent w -> Invariant.consistent (App.render w).
Proof.
  intros C. unfold App.render.
  destruct (App.showDirectoryPicker w), (App.mounted w); try exact C;
    apply consistent_frame; auto.
Qed.

Lemma render_rendered (w : App.t) :
  App.mounted (App.render w) = negb (App.showDirectoryPicker (App.render w)).
Proof.
  unfold App.render.
  destruct (App.showDirectoryPicker w) eqn:Ep, (App.mounted w) eqn:Em; fields;
    rewrite ?Ep, ?Em; reflexivity.
Qed.

Lemma render_newly_watched (w : App.t) :
  App.mounted w = false -> App.mounted (App.render w) = true ->
  App.watched (App.render w) = App.selected (App.render w).
Proof.
  unfold App.render. intros Em.
  destruct (App.showDirectoryPicker w); rewrite Em; fields;
    [rewrite Em; discriminate | reflexivity].
Qed.

Lemma runWatcher_consistent (w : App.t) :
  Invariant.consistent w -> Invariant.consistent (App.runWatcher w).
Proof.
  intros C. unfold App.runWatcher.
  destruct (App.same_object (App.selected w) (App.watched w)); [exact C |].
  assert (C1 : Invariant.consistent
                 (App.mk (App.store w) (App.selected w) (App.epoch w) (App.literals w)
                    (App.selected w) (App.issued w) (App.inflight w) (App.treeLoads w)
                    (App.delivered w) (App.showDirectoryPicker w) (App.mounted w)))
    by (apply consistent_frame; auto).
  destruct (Store.selectedFile (App.store w)) as [file|] eqn:Ef; [| exact C1].
  destruct (App.selected w) as [r|] eqn:Er; [| exact C1].
  now apply reload_consistent.
Qed.

Lemma runWatcher_view (w : App.t) :
  App.mounted (App.runWatcher w) = App.mounted w /\
  App.showDirectoryPicker (App.runWatcher w) = App.showDirectoryPicker w /\
  App.watched (App.runWatcher w) = App.selected (App.runWatcher w).
Proof.
  unfold App.runWatcher.
  destruct (App.same_object (App.selected w) (App.watched w)) eqn:E.
  - apply same_object_eq in E. now repeat split.
  - destruct (Store.selectedFile (App.store w)); [| now repeat split].
    destruct (App.selected w) eqn:Er; now repeat split.
Qed.

Lemma flush_holds (h : App.t) :
  Invariant.consistent h -> Invariant.holds (App.flushWatcher h).
Proof.
  intros C. unfold App.flushWatcher. cbv zeta.
  pose proof (render_consistent h C) as C1.
  pose proof (render_rendered h) as Hr.
  destruct (App.mounted (App.render h)) eqn:Em.
  - destruct (runWatcher_view (App.render h)) as [Hm [Hp Hw]].
    constructor.
    + now apply runWatcher_consistent.
    + intros _. exact Hw.
    + now rewrite Hm, Hp, Em.
  - constructor; [exact C1 | rewrite Em; discriminate | now rewrite Em].
Qed.

Lemma refreshDiff_consistent (w : App.t) :
  Invariant.consistent w -> Invariant.consistent (App.refreshDiff w).
Proof.
  intros C. unfold App.refreshDiff.
  destruct (Store.selectedFile (App.store w)) as [file|] eqn:Ef; [| exact C].
  destruct (App.selected w) as [r|] eqn:Er; [| exact C].
  now apply reload_consistent.
Qed.

Lemma toggle_consistent (key : DiffOptions.key) (w : App.t) :
  Invariant.consistent w -> Invariant.consistent (App.toggle key w).
Proof.
  intros C. unfold App.toggle. apply refreshDiff_consistent.
  apply consistent_frame; [exact C | reflexivity | reflexivity | auto].
Qed.

Lemma clickTreeItem_consistent (pos : list nat) (w : App.t) :
  Invariant.consistent w -> Invariant.consistent (App.clickTreeItem pos w).
Proof.
  intros C. unfold App.clickTreeItem.
  destruct (App.node_at (Store.fileTree (App.store w)) pos) as [node|]; [| exact C].
  destruct (FileTreeNode.is_dir node) eqn:Ed; [exact C |].
  unfold App.handleFileClick. rewrite Ed. cbn [negb].
  apply loadDiff_consistent; cbn.
  - discriminate.
  - intros n H. injection H as ->. lia.
  - exact (Invariant.inflight_issued _ C).
Qed.

(** [selectFile(changedFiles.value[i])] for an index in range. *)
Lemma select_listed_consistent (w : App.t) (i : Z) (f : FileEntry.t) :
  Invariant.consistent w ->
  at_index (Store.changedFiles (App.store w)) i = Some f ->
  Invariant.consistent
    (App.mk (Store.selectFile (Some f) (App.store w))
       (Some (App.Flattened (App.epoch w) (Z.to_nat i)))
       (App.epoch w) (App.literals w) (App.watched w) (App.issued w)
       (App.inflight w) (App.treeLoads w) (App.delivered w)
       (App.showDirectoryPicker w) (App.mounted w)).
Proof.
  intros C Hat.
  assert (Hnth : nth_error (Store.changedFiles (App.store w)) (Z.to_nat i) = Some f).
  { unfold at_index in Hat. now destruct (i <? 0). }
  constructor; fields.
  - split; discriminate.
  - intros e k H. injection H as <- <-. split; [lia | intros _; exact Hnth].
  - discriminate.
  - exact (Invariant.inflight_issued _ C).
Qed.

Lemma selectNextFile_consistent (w : App.t) :
  Invariant.consistent w -> Invariant.consistent (App.selectNextFile w).
Proof.
  intros C. unfold App.selectNextFile, Store.selectNextFile, App.listed.
  destruct (Store.canGoNext (App.store w)) eqn:E.
  - unfold Store.canGoNext in E. apply Z.ltb_lt in E.
    pose proof (currentFileIndex_range (App.store w)) as Hrange.
    destruct (at_index_in_range (Store.changedFiles (App.store w))
                (Store.currentFileIndex (App.store w) + 1)) as [f Hf]; [lia |].
    rewrite Hf. now apply select_listed_consistent.
  - rewrite app_eta. exact C.
Qed.

Lemma selectPrevFile_consistent (w : App.t) :
  Invariant.consistent w -> Invariant.consistent (App.selectPrevFile w).
Proof.
  intros C. unfold App.selectPrevFile, Store.selectPrevFile, App.listed.
  destruct (Store.canGoPrev (App.store w)) eqn:E.
  - unfold Store.canGoPrev in E. apply Z.gtb_lt in E.
    pose proof (currentFileIndex_range (App.store w)) as Hrange.
    destruct (at_index_in_range (Store.changedFiles (App.store w))
                (Store.currentFileIndex (App.store w) - 1)) as [f Hf]; [lia |].
    rewrite Hf. now apply select_listed_consistent.
  - rewrite app_eta. exact C.
Qed.

Lemma openDirectories_consistent (l r : string) (w : App.t) :
  Invariant.consistent w -> Invariant.consistent (App.openDirectories l r w).
Proof.
  intros C. unfold App.openDirectories, App.loadFileTree. fields.
  apply consistent_frame; [exact C | reflexivity | reflexivity | auto].
Qed.

Lemma handleShowPicker_consistent (w : App.t) :
  Invariant.consistent w -> Invariant.consistent (App.handleShowPicker w).
Proof.
  intros C. unfold App.handleShowPicker.
  apply consistent_frame; [exact C | reflexivity | reflexivity | auto].
Qed.

Lemma getDiffSettled_consistent (id : nat) (reply : Settled DiffResult.t) (w : App.t) :
  Invariant.consistent w -> Invariant.consistent (App.getDiffSettled id reply w).
Proof.
  intros C. unfold App.getDiffSettled.
  apply consistent_frame; [exact C | now destruct reply | now destruct reply |].
  intros j Hj. now apply filter_In in Hj.
Qed.

Lemma deltaChecked_consistent (reply : Settled bool) (w : App.t) :
  Invariant.consistent w -> Invariant.consistent (App.deltaChecked reply w).
Proof.
  intros C. unfold App.deltaChecked.
  apply consistent_frame; [exact C | now destruct reply | now destruct reply | auto].
Qed.

(** What [loadFileTree] does to the store when the tree arrives. *)
Lemma loadFileTree_resume_fulfilled (result : FileTreeResult.t) (s : Store.t) :
  fst (UseDiff.loadFileTree_resume (Fulfilled result) s) =
  let s1 := Store.setFileTree
              (FileTreeResult.tree result) (FileTreeResult.files result)
              (FileTreeResult.total_changes result) (FileTreeResult.added result)
              (FileTreeResult.deleted result) (FileTreeResult.modified result) s in
  if Z.of_nat (List.length (FileTreeResult.files result)) >? 0
  then Store.selectFirstFile s1
  else s1.
Proof.
  unfold UseDiff.loadFileTree_resume, UseDiff.try_catch, UseDiff.bind, UseDiff.await,
    UseDiff.act, UseDiff.ret. cbn.
  now destruct (Z.of_nat (List.length (FileTreeResult.files result)) >? 0).
Qed.

Lemma selectFirstFile_changedFiles (s : Store.t) :
  Store.changedFiles (Store.selectFirstFile s) = Store.changedFiles s.
Proof.
  unfold Store.selectFirstFile.
  now destruct (Z.of_nat (List.length (Store.changedFiles s)) >? 0).
Qed.

Lemma fileTreeSettled_consistent (reply : Settled FileTreeResult.t) (w : App.t) :
  Invariant.consistent w -> Invariant.consistent (App.fileTreeSettled reply w).
Proof.
  intros C. unfold App.fileTreeSettled.
  destruct reply as [result | reason].
  2: { apply consistent_frame; [exact C | reflexivity | reflexivity | auto]. }
  rewrite loadFileTree_resume_fulfilled. cbv zeta.
  set (s1 := Store.setFileTree _ _ _ _ _ _ (App.store w)).
  assert (Hkeep : forall s', Store.selectedFile s' = Store.selectedFile (App.store w) ->
            Invariant.consistent
              (App.mk s' (App.selected w) (S (App.epoch w)) (App.literals w) (App.watched w)
                 (App.issued w) (App.inflight w) (Nat.pred (App.treeLoads w))
                 (App.delivered w) (App.showDirectoryPicker w) (App.mounted w))).
  { intros s' Hsel. constructor; fields; rewrite ?Hsel.
    - exact (Invariant.selection_none _ C).
    - intros e i H. destruct (Invariant.selection_listed _ C e i H) as [Hle _].
      split; lia.
    - exact (Invariant.selection_literal _ C).
    - exact (Invariant.inflight_issued _ C). }
  destruct (Z.of_nat (List.length (FileTreeResult.files result)) >? 0) eqn:Efiles;
    cbn [andb]; [| now apply Hkeep].
  rewrite selectFirstFile_changedFiles. unfold Store.selectFirstFile.
  destruct (Z.of_nat (List.length (Store.changedFiles s1)) >? 0) eqn:Echanged;
    [| now apply Hkeep].
  apply Z.gtb_lt in Echanged.
  destruct (at_index_in_range (Store.changedFiles s1) 0) as [first Hfirst]; [lia |].
  rewrite Hfirst.
  constructor; fields.
  - split; discriminate.
  - intros e i H. injection H as <- <-. split; [lia | intros _; exact Hfirst].
  - discriminate.
  - exact (Invariant.inflight_issued _ C).
Qed.

Lemma handler_consistent (e : App.Event) (w : App.t) :
  Invariant.consistent w -> Invariant.consistent (App.handler e w).
Proof.
  intros C. destruct e; simpl App.handler.
  - now apply clickTreeItem_consistent.
  - now apply selectNextFile_consistent.
  - now apply selectPrevFile_consistent.
  - now apply toggle_consistent.
  - now apply openDirectories_consistent.
  - now apply fileTreeSettled_consistent.
  - now apply getDiffSettled_consistent.
  - now apply deltaChecked_consistent.
  - now apply handleShowPicker_consistent.
Qed.

Lemma step_holds (w w' : App.t) (e : App.Event) :
  Invariant.holds w -> App.step w e = Some w' -> Invariant.holds w'.
Proof.
  intros H Hstep. unfold App.step in Hstep.
  destruct (App.enabled e w); [| discriminate].
  injection Hstep as <-. apply flush_holds. apply handler_consistent.
  exact (Invariant.is_consistent _ H).
Qed.

Lemma initial_holds : Invariant.holds App.initial.
Proof. constructor; [constructor |..]; cbn; easy. Qed.

Lemma run_holds (trace : list App.Event) (w w' : App.t) :
  Invariant.holds w -> App.run w trace = Some w' -> Invariant.holds w'.
Proof.
  revert w. induction trace as [|e rest IH]; intros w H Hrun; simpl in Hrun.
  - now injection Hrun as <-.
  - destruct (App.step w e) as [w1|] eqn:E; [| discriminate].
    exact (IH w1 (step_holds _ _ _ H E) Hrun).
Qed.

Lemma reachable_holds (w : App.t) : App.reachable w -> Invariant.holds w.
Proof. intros [trace Hrun]. exact (run_holds _ _ _ initial_holds Hrun). Qed.

Lemma skipn_issued {A : Type} (l new : list A) :
  skipn (List.length l) (l ++ new) = new.
Proof. induction l as [|x l IH]; [reflexivity | exact IH]. Qed.

Lemma issuedSince_same (w w' : App.t) :
  App.issued w' = App.issued w -> App.issuedSince w w' = [].
Proof.
  intros H. unfold App.issuedSince. rewrite H.
  rewrite <- (app_nil_r (App.issued w)) at 2. apply skipn_issued.
Qed.


(** The watcher has nothing to do after a handler that kept the object. *)
Lemma flush_same_object (w h : App.t) :
  Invariant.holds w ->
  App.selected h = App.selected w -> App.watched h = App.watched w ->
  App.showDirectoryPicker h = App.showDirectoryPicker w ->
  App.mounted h = App.mounted w ->
  App.flushWatcher h = h.
Proof.
  intros H Hsel Hwat Hpick Hmount.
  pose proof (Invariant.is_rendered _ H) as Hr.
  pose proof (Invariant.watcher_ran _ H) as Hran.
  unfold App.flushWatcher, App.render, App.runWatcher. cbv zeta.
  rewrite Hpick, Hmount.
  destruct (App.showDirectoryPicker w), (App.mounted w) eqn:Em; try discriminate;
    rewrite ?Hmount, ?Em; [reflexivity |].
  now rewrite Hsel, Hwat, (Hran eq_refl), same_object_refl.
Qed.


Lemma opened_reachable : App.reachable (Session.after Session.opened).
Proof. exists Session.opened. vm_compute. reflexivity. Qed.


Lemma enabled_inflight (id : nat) (reply : Settled DiffResult.t) (w : App.t) :
  In id (App.inflight w) -> App.enabled (App.GetDiffSettled id reply) w = true.
Proof.
  intros H. simpl. apply existsb_exists. exists id. split; [exact H | apply Nat.eqb_refl].
Qed.

(** C4. When the [get_diff] call of a render is rejected, the message is
    stored in [diffError], [currentDiff] is cleared and [isLoadingDiff]
    becomes false; the thirteen other refs of the store -- the file tree, the
    file list, the change counts and the selected file among them -- keep
    their values, and no new call is made. *)
Theorem get_diff_failure_is_local (w : App.t) (id : nat) (error : string) :
  App.reachable w -> In id (App.inflight w) ->
  exists w',
    App.step w (App.GetDiffSettled id (Rejected error)) = Some w' /\
    App.store w' =
      (let s := App.store w in
       Store.mk (Store.leftDir s) (Store.rightDir s) (Store.fileTree s) (Store.files s)
         (Store.totalChanges s) (Store.addedCount s) (Store.deletedCount s)
         (Store.modifiedCount s) (Store.selectedFile s)
         None false (Some error)
         (Store.viewOptions s) (Store.deltaInstalled s) (Store.isLoadingTree s)
         (Store.treeError s)) /\
    App.issuedSince w w' = [].
Proof.
  intros Hreach Hin. pose proof (reachable_holds _ Hreach) as H.
  exists (App.getDiffSettled id (Rejected error) w).
  unfold App.step. rewrite (enabled_inflight _ _ _ Hin). simpl App.handler.
  rewrite (flush_same_object w); [| exact H | reflexivity | reflexivity | reflexivity | reflexivity].
  split; [reflexivity | split; [reflexivity |]].
  now apply issuedSince_same.
Qed.

Lemma get_diff_failure_is_local_witness :
  exists w',
    App.step (Session.after Session.opened)
      (App.GetDiffSettled 0 (Rejected "delta exited with status 2")) = Some w' /\
    Store.diffError (App.store w') = Some "delta exited with status 2" /\
    Store.selectedFile (App.store w') = Some Session.fileA /\
    Store.fileTree (App.store w') = [Session.nodeA; Session.nodeB].
Proof.
  destruct (get_diff_failure_is_local (Session.after Session.opened) 0
              "delta exited with status 2" opened_reachable)
    as [w' [Hstep [Hstore _]]]; [vm_compute; left; reflexivity |].
  exists w'. split; [exact Hstep |]. rewrite Hstore.
  repeat split; vm_compute; reflexivity.
Defined.

(** A handler changes the selected file only through [selectFile], which
    clears the diff on display. *)
Lemma handler_selects_clears (e : App.Event) (w : App.t) :
  Store.selectedFile (App.store (App.handler e w)) <> Store.selectedFile (App.store w) ->
  Store.currentDiff (App.store (App.handler e w)) = None.
Proof.
  destruct e; simpl App.handler.
  - unfold App.clickTreeItem.
    destruct (App.node_at _ pos) as [node|]; [| congruence].
    destruct (FileTreeNode.is_dir node) eqn:Ed; [congruence |].
    unfold App.handleFileClick. rewrite Ed. reflexivity.
  - unfold App.selectNextFile, Store.selectNextFile. fields.
    destruct (Store.canGoNext (App.store w)); [reflexivity | congruence].
  - unfold App.selectPrevFile, Store.selectPrevFile. fields.
    destruct (Store.canGoPrev (App.store w)); [reflexivity | congruence].
  - unfold App.toggle, App.refreshDiff. fields.
    change (Store.selectedFile (Store.toggleViewOption key (App.store w)))
      with (Store.selectedFile (App.store w)).
    destruct (Store.selectedFile (App.store w)) eqn:Ef; [| fields; cbn; congruence].
    destruct (App.selected w); [reflexivity | fields; cbn; congruence].
  - unfold App.openDirectories, App.loadFileTree. fields. cbn. congruence.
  - unfold App.fileTreeSettled. destruct reply as [result | reason]; fields;
      [| cbn; congruence].
    rewrite loadFileTree_resume_fulfilled. cbv zeta.
    destruct (Z.of_nat (List.length (FileTreeResult.files result)) >? 0);
      [| cbn; congruence].
    unfold Store.selectFirstFile.
    destruct (Z.of_nat (List.length (Store.changedFiles _)) >? 0);
      [reflexivity | cbn; congruence].
  - unfold App.getDiffSettled. fields. destruct reply; cbn; congruence.
  - unfold App.deltaChecked. fields. destruct reply as [[|]|]; cbn; congruence.
  - unfold App.handleShowPicker. fields. congruence.
Qed.

(** What follows a handler: nothing that touches the store or the calls,
    or one [loadDiff] on the selected file. *)
Lemma flush_cases (h : App.t) :
  (exists x,
     App.flushWatcher h = x /\
     App.store x = App.store h /\ App.issued x = App.issued h /\
     App.inflight x = App.inflight h) \/
  (exists x r file,
     App.flushWatcher h = App.loadDiff r file x /\
     App.store x = App.store h /\ App.issued x = App.issued h /\
     App.inflight x = App.inflight h /\
     Store.selectedFile (App.store h) = Some file).
Proof.
  unfold App.flushWatcher, App.render, App.runWatcher. cbv zeta.
  destruct (App.showDirectoryPicker h) eqn:Ep, (App.mounted h) eqn:Em; fields;
    rewrite ?Em; fields;
    try (left; eexists; repeat split; reflexivity);
    (destruct (App.same_object _ _);
     [left; eexists; repeat split; reflexivity |]);
    (destruct (Store.selectedFile (App.store h)) as [file|] eqn:Ef;
     [| left; eexists; repeat split; reflexivity]);
    (destruct (App.selected h) as [r|];
     [| left; eexists; repeat split; reflexivity]);
    right; eexists; exists r, file; repeat split; reflexivity.
Qed.

Lemma flush_selectedFile (h : App.t) :
  Store.selectedFile (App.store (App.flushWatcher h)) = Store.selectedFile (App.store h).
Proof.
  destruct (flush_cases h) as [[x [-> [Hs _]]] | [x [r [file [-> [_ [_ [_ Hf]]]]]]]].
  - now rewrite Hs.
  - now rewrite Hf.
Qed.

Lemma flush_keeps_cleared (h : App.t) :
  Store.currentDiff (App.store h) = None ->
  Store.currentDiff (App.store (App.flushWatcher h)) = None.
Proof.
  intros Hnone.
  destruct (flush_cases h) as [[x [-> [Hs _]]] | [x [r [file [-> _]]]]].
  - now rewrite Hs.
  - reflexivity.
Qed.

(** C1, the claim: on every run of the application the diff on display was
    rendered for the selected file. It fails on the run [Session.superseded]:
    the render of [a.txt] is pending when the user moves to [b.txt]; when it
    settles, its result is on display while [b.txt] is selected. *)
Lemma stale_render_is_displayed :
  ~ (forall trace w, App.run App.initial trace = Some w -> App.displaysSelected w).
Proof.
  intros Hclaim.
  assert (Hrun : App.run App.initial Session.superseded =
                 Some (Session.after Session.superseded)) by (vm_compute; reflexivity).
  destruct (Hclaim _ _ Hrun Session.fileA) as [sel [Hsel Hpath]].
  - vm_compute. reflexivity.
  - vm_compute in Hsel. injection Hsel as <-. discriminate.
Qed.

(** When the older call settles last, its result stays on display with no
    call pending: [b.txt] is selected, the diff is that of [a.txt]. *)
Lemma overtaken_render_stays :
  let w := Session.after Session.overtaken in
  App.run App.initial Session.overtaken = Some w /\
  Store.selectedFile (App.store w) = Some Session.fileB /\
  Store.currentDiff (App.store w) = Some Session.diffA /\
  Store.isLoadingDiff (App.store w) = false /\
  App.inflight w = [].
Proof. intros w. repeat (split; [vm_compute; reflexivity |]). vm_compute. reflexivity. Qed.

(** C1, as the code has it: the store holds no request token, and a pending
    render is neither cancelled nor disregarded. An event that changes the
    selected file clears the diff on display. When any pending [get_diff]
    call settles with a result, that result becomes the diff on display,
    whatever file is selected, and the selection does not change. *)
Theorem settled_render_is_displayed (w : App.t) :
  App.reachable w ->
  (forall e w', App.step w e = Some w' ->
     Store.selectedFile (App.store w') <> Store.selectedFile (App.store w) ->
     Store.currentDiff (App.store w') = None) /\
  (forall id result, In id (App.inflight w) ->
     exists w' req,
       App.step w (App.GetDiffSettled id (Fulfilled result)) = Some w' /\
       nth_error (App.issued w) id = Some req /\
       Store.currentDiff (App.store w') = Some result /\
       Store.selectedFile (App.store w') = Store.selectedFile (App.store w) /\
       App.displayedFor w' = Some (UseDiff.file req)).
Proof.
  intros Hreach. pose proof (reachable_holds _ Hreach) as H.
  pose proof (Invariant.is_consistent _ H) as C. split.
  - intros e w' Hstep Hchanged. unfold App.step in Hstep.
    destruct (App.enabled e w); [| discriminate]. injection Hstep as <-.
    rewrite flush_selectedFile in Hchanged.
    apply flush_keeps_cleared. now apply handler_selects_clears.
  - intros id result Hin.
    destruct (nth_error (App.issued w) id) as [req|] eqn:Enth.
    2: { apply nth_error_None in Enth.
         pose proof (Invariant.inflight_issued _ C id Hin). lia. }
    exists (App.getDiffSettled id (Fulfilled result) w), req.
    unfold App.step. rewrite (enabled_inflight _ _ _ Hin). simpl App.handler.
    rewrite (flush_same_object w);
      [| exact H | reflexivity | reflexivity | reflexivity | reflexivity].
    assert (Hshown : App.displayedFor (App.getDiffSettled id (Fulfilled result) w) =
                     Some (UseDiff.file req)).
    { unfold App.displayedFor, App.getDiffSettled. fields. cbn. now rewrite Enth. }
    repeat (split; [reflexivity |]). exact Hshown.
Qed.

Lemma settled_render_is_displayed_witness :
  exists w',
    App.step (Session.after Session.opened) (App.GetDiffSettled 0 (Fulfilled Session.diffA))
      = Some w' /\
    Store.currentDiff (App.store w') = Some Session.diffA /\
    App.displayedFor w' = Some Session.fileA.
Proof.
  destruct (proj2 (settled_render_is_displayed (Session.after Session.opened)
                     opened_reachable) 0%nat Session.diffA)
    as [w' [req [Hstep [Hreq [Hdiff [_ Hshown]]]]]];
    [vm_compute; left; reflexivity |].
  exists w'. split; [exact Hstep | split; [exact Hdiff |]].
  rewrite Hshown. vm_compute in Hreq. now injection Hreq as <-.
Defined.

(** ** One render for each selection *)

Lemma issuedSince_app (w w' : App.t) (new : list UseDiff.request) :
  App.issued w' = App.issued w ++ new -> App.issuedSince w w' = new.
Proof. intros H. unfold App.issuedSince. rewrite H. apply skipn_issued. Qed.

(** The calls a handler makes are for the file it leaves selected. *)
Lemma handler_issues (e : App.Event) (w : App.t) :
  exists new,
    App.issued (App.handler e w) = App.issued w ++ new /\
    forall req, In req new -> App.forSelection (App.store (App.handler e w)) req.
Proof.
  assert (Hnone : forall h, App.issued h = App.issued w ->
            exists new, App.issued h = App.issued w ++ new /\
              forall req, In req new -> App.forSelection (App.store h) req).
  { intros h Hh. exists []. rewrite app_nil_r. split; [exact Hh | contradiction]. }
  assert (Hload : forall r file x, App.issued x = App.issued w ->
            exists new, App.issued (App.loadDiff r file x) = App.issued w ++ new /\
              forall req, In req new ->
                App.forSelection (App.store (App.loadDiff r file x)) req).
  { intros r file x Hx. eexists. unfold App.loadDiff. cbn. rewrite Hx.
    split; [reflexivity |]. intros req [<- | []]. now repeat split. }
  destruct e; simpl App.handler.
  - unfold App.clickTreeItem.
    destruct (App.node_at _ pos) as [node|]; [| now apply Hnone].
    destruct (FileTreeNode.is_dir node) eqn:Ed; [now apply Hnone |].
    unfold App.handleFileClick. rewrite Ed. cbn [negb]. now apply Hload.
  - now apply Hnone.
  - now apply Hnone.
  - unfold App.toggle, App.refreshDiff. fields.
    destruct (Store.selectedFile _); [| now apply Hnone].
    destruct (App.selected w); [now apply Hload | now apply Hnone].
  - now apply Hnone.
  - apply Hnone. now destruct reply.
  - now apply Hnone.
  - now apply Hnone.
  - now apply Hnone.
Qed.

Lemma loadDiff_issued_eq (r : App.ObjRef) (file : FileEntry.t) (x : App.t) :
  App.issued (App.loadDiff r file x) =
  App.issued x ++
  [ UseDiff.mkRequest file (FileEntry.left_path file) (FileEntry.right_path file)
      (Store.viewOptions (App.store x)) ].
Proof. reflexivity. Qed.

(** The watcher makes at most one call, for the selected file. *)
Lemma flush_issues (h : App.t) :
  exists new,
    App.issued (App.flushWatcher h) = App.issued h ++ new /\
    forall req, In req new -> App.forSelection (App.store (App.flushWatcher h)) req.
Proof.
  destruct (flush_cases h) as [[x [-> [Hs [Hi _]]]] | [x [r [file [-> [Hs [Hi _]]]]]]].
  - exists []. rewrite app_nil_r. split; [exact Hi | contradiction].
  - eexists. rewrite loadDiff_issued_eq, Hi. split; [reflexivity |].
    intros req [<- | []]. now repeat split.
Qed.

(** X18. Every [get_diff] call made during an event asks for the file that is
    selected when the event has been handled: no call is made for any other
    file. *)
Lemma requests_follow_selection (w w' : App.t) (e : App.Event) :
  App.step w e = Some w' ->
  forall req, In req (App.issuedSince w w') -> App.forSelection (App.store w') req.
Proof.
  intros Hstep. unfold App.step in Hstep.
  destruct (App.enabled e w); [| discriminate]. injection Hstep as <-.
  destruct (handler_issues e w) as [new [Hnew Hfor]].
  destruct (flush_issues (App.handler e w)) as [new' [Hnew' Hfor']].
  rewrite (issuedSince_app w _ (new ++ new')).
  2: { rewrite Hnew', Hnew. now rewrite app_assoc. }
  intros req Hin. apply in_app_or in Hin as [Hin | Hin]; [| now apply Hfor'].
  destruct (Hfor req Hin) as [Hsel Hpaths].
  split; [| exact Hpaths]. now rewrite flush_selectedFile.
Qed.

Lemma loadDiff_issued (r : App.ObjRef) (file : FileEntry.t) (x : App.t) :
  App.issued (App.loadDiff r file x) =
  App.issued x ++
  [ UseDiff.mkRequest file (FileEntry.left_path file) (FileEntry.right_path file)
      (Store.viewOptions (App.store x)) ].
Proof. reflexivity. Qed.

(** The watcher calls [loadDiff] when the selected object is a new one. *)
Lemma flush_fires (h : App.t) (r : App.ObjRef) (file : FileEntry.t) :
  App.selected h = Some r ->
  Store.selectedFile (App.store h) = Some file ->
  App.watched h <> Some r ->
  App.showDirectoryPicker h = false -> App.mounted h = true ->
  App.flushWatcher h =
  App.loadDiff r file
    (App.mk (App.store h) (App.selected h) (App.epoch h) (App.literals h)
       (App.selected h) (App.issued h) (App.inflight h) (App.treeLoads h)
       (App.delivered h) (App.showDirectoryPicker h) (App.mounted h)).
Proof.
  intros Hr Hfile Hnew Hpick Hmount.
  unfold App.flushWatcher, App.render, App.runWatcher. cbv zeta.
  rewrite Hpick, Hmount, Hmount.
  destruct (App.same_object (App.selected h) (App.watched h)) eqn:E.
  - apply same_object_eq in E. congruence.
  - rewrite Hfile, Hr, ?Hpick, ?Hmount. reflexivity.
Qed.

(** Without the main view there is no watcher: nothing follows a handler
    that leaves the picker shown. *)
Lemma flush_unmounted (h : App.t) :
  App.showDirectoryPicker h = true -> App.mounted h = false ->
  App.flushWatcher h = h.
Proof.
  intros Hpick Hmount. unfold App.flushWatcher, App.render. cbv zeta.
  now rewrite Hpick, Hmount, Hmount.
Qed.

(** X19. While the main view is rendered, a click on a file in the tree
    makes two [get_diff] calls with the same arguments: one from
    [handleFileClick], one from the watcher, to which the object just built
    is a new value of [selectedFile]. *)
Lemma file_click_issues_two (w : App.t) (pos : list nat) (node : FileTreeNode.t) :
  App.reachable w -> App.mounted w = true ->
  App.node_at (Store.fileTree (App.store w)) pos = Some node ->
  FileTreeNode.is_dir node = false ->
  exists w' req,
    App.step w (App.ClickTreeItem pos) = Some w' /\
    App.issuedSince w w' = [req; req] /\
    FileEntry.path (UseDiff.file req) = FileTreeNode.path node.
Proof.
  intros Hreach Hmount Hnode Hfile.
  pose proof (reachable_holds _ Hreach) as [C Hran Hrend].
  assert (Hpick : App.showDirectoryPicker w = false)
    by (rewrite Hmount in Hrend; now destruct (App.showDirectoryPicker w)).
  unfold App.step. simpl App.enabled. rewrite Hmount.
  simpl App.handler. unfold App.clickTreeItem. rewrite Hnode, Hfile.
  unfold App.handleFileClick. rewrite Hfile. cbn [negb].
  set (file := FileEntry.mk _ _ _ _ _ _).
  set (x := App.mk _ _ _ _ _ _ _ _ _ _ _).
  assert (Hfresh : App.watched (App.loadDiff (App.Literal (App.literals w)) file x) <>
                   Some (App.Literal (App.literals w))).
  { change (App.watched w <> Some (App.Literal (App.literals w))).
    rewrite (Hran Hmount). intros Hsel.
    pose proof (Invariant.selection_literal _ C _ Hsel). lia. }
  rewrite (flush_fires (App.loadDiff (App.Literal (App.literals w)) file x)
             (App.Literal (App.literals w)) file eq_refl eq_refl Hfresh Hpick Hmount).
  eexists. eexists. split; [reflexivity | split].
  - apply issuedSince_app. rewrite loadDiff_issued. fields.
    rewrite loadDiff_issued. subst x. fields. rewrite <- app_assoc. reflexivity.
  - reflexivity.
Qed.

(** X20. While the main view is rendered, the key [j], when there is a next
    file other than the selected object, makes one call, for that file. *)
Lemma next_issues_one (w : App.t) :
  App.reachable w -> App.mounted w = true ->
  Store.canGoNext (App.store w) = true ->
  App.selected w <> App.listed w (Store.currentFileIndex (App.store w) + 1) ->
  exists w' req,
    App.step w App.KeyJ = Some w' /\
    App.issuedSince w w' = [req] /\
    Some (UseDiff.file req) =
      at_index (Store.changedFiles (App.store w)) (Store.currentFileIndex (App.store w) + 1).
Proof.
  intros Hreach Hmount Hnext Hother.
  pose proof (reachable_holds _ Hreach) as [C Hran Hrend].
  assert (Hpick : App.showDirectoryPicker w = false)
    by (rewrite Hmount in Hrend; now destruct (App.showDirectoryPicker w)).
  unfold App.listed in Hother.
  pose proof (currentFileIndex_range (App.store w)) as Hrange.
  pose proof Hnext as Hlt. unfold Store.canGoNext in Hlt. apply Z.ltb_lt in Hlt.
  destruct (at_index_in_range (Store.changedFiles (App.store w))
              (Store.currentFileIndex (App.store w) + 1)) as [f Hf]; [lia |].
  rewrite Hf in Hother |- *.
  unfold App.step. simpl App.enabled. rewrite Hmount.
  simpl App.handler. unfold App.selectNextFile, Store.selectNextFile, App.listed.
  rewrite Hnext, Hf.
  set (r := App.Flattened _ _) in *.
  set (h := App.mk _ _ _ _ _ _ _ _ _ _ _).
  rewrite (flush_fires h r f eq_refl eq_refl); [| | exact Hpick | exact Hmount].
  2: { subst h. fields. now rewrite (Hran Hmount). }
  subst h.
  eexists. eexists. split; [reflexivity | split].
  - apply issuedSince_app. rewrite loadDiff_issued. fields. reflexivity.
  - reflexivity.
Qed.

(** C6. With [a.txt] selected and rendered, a click on [b.txt] in the tree
    makes two [get_diff] calls for [b.txt], with the same arguments, where
    the key [j], which selects the same file, makes one. *)
Theorem click_issues_two_get_diff_calls :
  let w := Session.after Session.rendered in
  let request :=
    UseDiff.mkRequest Session.fileB None (Some "/right/b.txt")
      (DiffOptions.mk true true true false) in
  App.run App.initial Session.rendered = Some w /\
  (exists w', App.step w (App.ClickTreeItem [1%nat]) = Some w' /\
     Store.selectedFile (App.store w') = Some Session.fileB /\
     App.issuedSince w w' = [request; request]) /\
  (exists w', App.step w App.KeyJ = Some w' /\
     Store.selectedFile (App.store w') = Some Session.fileB /\
     App.issuedSince w w' = [request]).
Proof.
  intros w request. split; [vm_compute; reflexivity | split].
  - exists (App.flushWatcher (App.clickTreeItem [1%nat] w)).
    split; [| split]; vm_compute; reflexivity.
  - exists (App.flushWatcher (App.selectNextFile w)).
    split; [| split]; vm_compute; reflexivity.
Qed.

(* ------------------------------------------------------------------ *)
(** * Further properties of the code *)

(** ** Navigation in the changed-file list *)

Lemma findIndexFrom_found {A : Type} (p : A -> bool) (l : list A) (k : Z) :
  (exists x, In x l /\ p x = true) ->
  exists n f,
    findIndexFrom p l k = k + Z.of_nat n /\
    nth_error l n = Some f /\ p f = true /\
    forall j g, (j < n)%nat -> nth_error l j = Some g -> p g = false.
Proof.
  revert k. induction l as [|x l IH]; intros k [y [Hin Hp]]; [contradiction |].
  simpl. destruct (p x) eqn:Px.
  - exists 0%nat, x. repeat split; [lia | exact Px | intros j g Hj; lia].
  - destruct Hin as [-> | Hin]; [congruence |].
    destruct (IH (k + 1) (ex_intro _ y (conj Hin Hp))) as [n [f [Hr [Hn [Hf Hbefore]]]]].
    exists (S n), f. repeat split; [lia | exact Hn | exact Hf |].
    intros [|j] g Hj Hg; simpl in Hg.
    + now injection Hg as <-.
    + apply (Hbefore j g); [lia | exact Hg].
Qed.

Lemma at_index_nat {A : Type} (l : list A) (n : nat) :
  at_index l (Z.of_nat n) = nth_error l n.
Proof.
  unfold at_index. destruct (Z.ltb_spec (Z.of_nat n) 0); [lia |].
  now rewrite Nat2Z.id.
Qed.

(** X1. When the path of the selected file is the path of a changed file,
    [currentFileIndex] is the position of the first changed file with that
    path. *)
Theorem currentFileIndex_first_match (s : Store.t) (sel : FileEntry.t) :
  Store.selectedFile s = Some sel ->
  In (FileEntry.path sel) (map FileEntry.path (Store.changedFiles s)) ->
  exists n f,
    Store.currentFileIndex s = Z.of_nat n /\
    nth_error (Store.changedFiles s) n = Some f /\
    FileEntry.path f = FileEntry.path sel /\
    forall j g, (j < n)%nat -> nth_error (Store.changedFiles s) j = Some g ->
                FileEntry.path g <> FileEntry.path sel.
Proof.
  intros Hsel Hin. unfold Store.currentFileIndex, findIndex. rewrite Hsel.
  apply in_map_iff in Hin as [x [Hx Hinx]].
  destruct (findIndexFrom_found
              (fun f => String.eqb (FileEntry.path f) (FileEntry.path sel))
              (Store.changedFiles s) 0) as [n [f [Hr [Hn [Hf Hbefore]]]]].
  { exists x. split; [exact Hinx | now apply String.eqb_eq]. }
  exists n, f. repeat split; [lia | exact Hn | now apply String.eqb_eq |].
  intros j g Hj Hg. apply String.eqb_neq. exact (Hbefore j g Hj Hg).
Qed.

Lemma currentFileIndex_first_match_witness :
  let s := Store.selectFile (Some Session.fileB)
             (Store.set_fileTree [Session.nodeA; Session.nodeB] Store.initial) in
  exists n f,
    Store.currentFileIndex s = Z.of_nat n /\
    nth_error (Store.changedFiles s) n = Some f /\
    FileEntry.path f = FileEntry.path Session.fileB /\
    forall j g, (j < n)%nat -> nth_error (Store.changedFiles s) j = Some g ->
                FileEntry.path g <> FileEntry.path Session.fileB.
Proof.
  intros s. apply (currentFileIndex_first_match s Session.fileB).
  - reflexivity.
  - vm_compute. right. left. reflexivity.
Defined.

(** X2. Every entry of [changedFiles] is made from a node of the tree that
    is not a directory: it has that node's path, name and source paths, its
    [is_dir] is false and its status is one of the four change statuses,
    never ['Unchanged']. *)
Theorem changedFiles_entries_are_changed_files (s : Store.t) (f : FileEntry.t) :
  In f (Store.changedFiles s) ->
  exists node st,
    In node (flat_map Spec.inOrder (Store.fileTree s)) /\
    FileTreeNode.is_dir node = false /\
    FileTreeNode.status node = Some st /\
    f = FileEntry.mk (FileTreeNode.path node) (FileTreeNode.name node) (Changed st) false
          (FileTreeNode.left_path node) (FileTreeNode.right_path node).
Proof.
  unfold Store.changedFiles. rewrite flattenTree_inOrder. unfold Spec.changedEntries.
  intros Hin. apply in_flat_map in Hin as [node [Hnode Hentry]].
  unfold Spec.entryOf in Hentry.
  destruct (FileTreeNode.is_dir node) eqn:Ed; [contradiction |].
  destruct (FileTreeNode.status node) as [st|] eqn:Es; [| contradiction].
  destruct Hentry as [<- | []]. now exists node, st.
Qed.

Lemma changedFiles_entries_are_changed_files_witness :
  exists node st,
    In node (flat_map Spec.inOrder [Session.nodeA; Session.nodeB]) /\
    FileTreeNode.is_dir node = false /\
    FileTreeNode.status node = Some st /\
    Session.fileB =
      FileEntry.mk (FileTreeNode.path node) (FileTreeNode.name node) (Changed st) false
        (FileTreeNode.left_path node) (FileTreeNode.right_path node).
Proof.
  apply (changedFiles_entries_are_changed_files
           (Store.set_fileTree [Session.nodeA; Session.nodeB] Store.initial)
           Session.fileB).
  vm_compute. right. left. reflexivity.
Defined.

Lemma changedFiles_not_directories (s : Store.t) (f : FileEntry.t) :
  In f (Store.changedFiles s) -> FileEntry.is_dir f = false.
Proof.
  unfold Store.changedFiles. rewrite flattenTree_inOrder. unfold Spec.changedEntries.
  intros Hin. apply in_flat_map in Hin as [node [_ Hentry]].
  unfold Spec.entryOf in Hentry.
  destruct (FileTreeNode.is_dir node); [contradiction |].
  destruct (FileTreeNode.status node); [| contradiction].
  now destruct Hentry as [<- | []].
Qed.

Lemma selectFile_changedFiles (file : option FileEntry.t) (s : Store.t) :
  Store.changedFiles (Store.selectFile file s) = Store.changedFiles s.
Proof. reflexivity. Qed.

(** With distinct paths, the index of a path is the position it is at. *)
Lemma currentFileIndex_at (s : Store.t) (sel f : FileEntry.t) (i : nat) :
  NoDup (map FileEntry.path (Store.changedFiles s)) ->
  Store.selectedFile s = Some sel ->
  nth_error (Store.changedFiles s) i = Some f ->
  FileEntry.path sel = FileEntry.path f ->
  Store.currentFileIndex s = Z.of_nat i.
Proof.
  intros Hnodup Hsel Hnth Hpath.
  destruct (currentFileIndex_range s) as [_ Hlt].
  assert (Hin : In (FileEntry.path sel) (map FileEntry.path (Store.changedFiles s))).
  { rewrite Hpath. apply in_map. exact (nth_error_In _ _ Hnth). }
  unfold Store.currentFileIndex, findIndex in *. rewrite Hsel in *.
  apply in_map_iff in Hin as [x [Hx Hinx]].
  destruct (findIndexFrom_found
              (fun g => String.eqb (FileEntry.path g) (FileEntry.path sel))
              (Store.changedFiles s) 0) as [n [g [Hr [Hn [Hg _]]]]].
  { exists x. split; [exact Hinx | now apply String.eqb_eq]. }
  rewrite Hr. apply String.eqb_eq in Hg.
  cut (n = i); [intros ->; lia |].
  assert (Hsame : nth_error (map FileEntry.path (Store.changedFiles s)) n =
                  nth_error (map FileEntry.path (Store.changedFiles s)) i).
  { rewrite !nth_error_map, Hn, Hnth. simpl. congruence. }
  apply (proj1 (NoDup_nth_error _) Hnodup n i); [| exact Hsame].
  rewrite length_map. apply nth_error_Some. now rewrite Hn.
Qed.

(** X3. When the changed files have distinct paths and the selected file
    has the path of the changed file at position [i]: [currentFileIndex] is
    [i]; [selectNextFile] selects the file at [i + 1], whose index is then
    [i + 1], and [selectPrevFile] after it selects the file at [i] again; at
    the last file [selectNextFile] changes nothing, and at the first file
    [selectPrevFile] changes nothing. *)
Theorem navigation_moves_by_one (s : Store.t) (sel f : FileEntry.t) (i : nat) :
  NoDup (map FileEntry.path (Store.changedFiles s)) ->
  Store.selectedFile s = Some sel ->
  nth_error (Store.changedFiles s) i = Some f ->
  FileEntry.path sel = FileEntry.path f ->
  Store.currentFileIndex s = Z.of_nat i /\
  (forall g, nth_error (Store.changedFiles s) (S i) = Some g ->
     Store.selectedFile (Store.selectNextFile s) = Some g /\
     Store.currentFileIndex (Store.selectNextFile s) = Z.of_nat (S i) /\
     Store.selectedFile (Store.selectPrevFile (Store.selectNextFile s)) = Some f) /\
  (nth_error (Store.changedFiles s) (S i) = None -> Store.selectNextFile s = s) /\
  (i = 0%nat -> Store.selectPrevFile s = s).
Proof.
  intros Hnodup Hsel Hnth Hpath.
  pose proof (currentFileIndex_at s sel f i Hnodup Hsel Hnth Hpath) as Hidx.
  split; [exact Hidx | split; [| split]].
  - intros g Hg.
    assert (Hlen : (S i < List.length (Store.changedFiles s))%nat).
    { apply nth_error_Some. now rewrite Hg. }
    assert (Hnext : Store.selectNextFile s = Store.selectFile (Some g) s).
    { unfold Store.selectNextFile, Store.canGoNext. rewrite Hidx.
      destruct (Z.ltb_spec (Z.of_nat i) (Z.of_nat (List.length (Store.changedFiles s)) - 1));
        [| lia].
      replace (Z.of_nat i + 1) with (Z.of_nat (S i)) by lia.
      now rewrite at_index_nat, Hg. }
    rewrite Hnext.
    assert (Hidx' : Store.currentFileIndex (Store.selectFile (Some g) s) = Z.of_nat (S i)).
    { apply (currentFileIndex_at _ g g (S i)); [exact Hnodup | reflexivity | exact Hg |
                                                reflexivity]. }
    split; [reflexivity | split; [exact Hidx' |]].
    unfold Store.selectPrevFile, Store.canGoPrev. rewrite Hidx'.
    destruct (Z.gtb_spec (Z.of_nat (S i)) 0); [| lia].
    replace (Z.of_nat (S i) - 1) with (Z.of_nat i) by lia.
    rewrite selectFile_changedFiles, at_index_nat, Hnth. reflexivity.
  - intros Hlast. apply nth_error_None in Hlast.
    unfold Store.selectNextFile, Store.canGoNext. rewrite Hidx.
    destruct (Z.ltb_spec (Z.of_nat i) (Z.of_nat (List.length (Store.changedFiles s)) - 1));
      [lia | reflexivity].
  - intros ->. unfold Store.selectPrevFile, Store.canGoPrev. now rewrite Hidx.
Qed.

Lemma navigation_moves_by_one_witness :
  let s := Store.selectFile (Some Session.fileA)
             (Store.set_fileTree [Session.nodeA; Session.nodeB] Store.initial) in
  Store.selectedFile (Store.selectNextFile s) = Some Session.fileB /\
  Store.currentFileIndex (Store.selectNextFile s) = 1 /\
  Store.selectedFile (Store.selectPrevFile (Store.selectNextFile s)) = Some Session.fileA.
Proof.
  intros s.
  apply (proj1 (proj2 (navigation_moves_by_one s Session.fileA Session.fileA 0%nat
                         ltac:(vm_compute; repeat constructor; simpl; intuition discriminate)
                         eq_refl eq_refl eq_refl))).
  reflexivity.
Defined.

(** X4. [selectNextFile], [selectPrevFile] and [selectFirstFile] either
    leave the selection as it is or select an element of [changedFiles]:
    the index they use is always in range, so they never store [undefined]. *)
Theorem navigation_selects_changed_file (s : Store.t) (nav : Store.t -> Store.t) :
  In nav [Store.selectNextFile; Store.selectPrevFile; Store.selectFirstFile] ->
  Store.selectedFile (nav s) = Store.selectedFile s \/
  exists f, Store.selectedFile (nav s) = Some f /\ In f (Store.changedFiles s).
Proof.
  pose proof (currentFileIndex_range s) as Hrange.
  assert (Hat : forall i, 0 <= i < Z.of_nat (List.length (Store.changedFiles s)) ->
            exists f, Store.selectedFile
                        (Store.selectFile (at_index (Store.changedFiles s) i) s) = Some f /\
                      In f (Store.changedFiles s)).
  { intros i Hi. destruct (at_index_in_range (Store.changedFiles s) i Hi) as [f Hf].
    exists f. rewrite Hf. split; [reflexivity |].
    unfold at_index in Hf. destruct (i <? 0); [discriminate |].
    exact (nth_error_In _ _ Hf). }
  intros [<- | [<- | [<- | []]]].
  - unfold Store.selectNextFile, Store.canGoNext.
    destruct (Z.ltb_spec (Store.currentFileIndex s)
                (Z.of_nat (List.length (Store.changedFiles s)) - 1));
      [right; apply Hat; lia | now left].
  - unfold Store.selectPrevFile, Store.canGoPrev.
    destruct (Z.gtb_spec (Store.currentFileIndex s) 0);
      [right; apply Hat; lia | now left].
  - unfold Store.selectFirstFile.
    destruct (Z.gtb_spec (Z.of_nat (List.length (Store.changedFiles s))) 0);
      [right; apply Hat; lia | now left].
Qed.

Lemma navigation_selects_changed_file_witness :
  let s := Store.set_fileTree [Session.nodeA; Session.nodeB] Store.initial in
  Store.selectedFile (Store.selectFirstFile s) = Store.selectedFile s \/
  exists f, Store.selectedFile (Store.selectFirstFile s) = Some f /\
            In f (Store.changedFiles s).
Proof.
  intros s. apply (navigation_selects_changed_file s Store.selectFirstFile).
  right. right. left. reflexivity.
Defined.

(** ** Hunks *)

(** X5. The second test of [isHunkSep] adds nothing: a line is a separator
    exactly when three box-drawing dashes in a row occur in its HTML. *)
Theorem isHunkSep_three_dashes (html : jsstring) :
  DiffView.isHunkSep html = includes html [DiffView.dash; DiffView.dash; DiffView.dash] /\
  (DiffView.isHunkSep html = true <->
   exists before rest,
     html = before ++ [DiffView.dash; DiffView.dash; DiffView.dash] ++ rest).
Proof.
  assert (Hfour : includes html [DiffView.dash; DiffView.dash; DiffView.dash; DiffView.dash]
                  = true ->
                  includes html [DiffView.dash; DiffView.dash; DiffView.dash] = true).
  { intros H. apply includes_spec in H as [before [rest ->]].
    apply includes_spec. now exists before, (DiffView.dash :: rest). }
  assert (Heq : DiffView.isHunkSep html =
                includes html [DiffView.dash; DiffView.dash; DiffView.dash]).
  { unfold DiffView.isHunkSep.
    destruct (includes html [DiffView.dash; DiffView.dash; DiffView.dash]) eqn:E3;
      [reflexivity |].
    destruct (includes html [DiffView.dash; DiffView.dash; DiffView.dash; DiffView.dash])
      eqn:E4; [| reflexivity].
    specialize (Hfour eq_refl). discriminate. }
  split; [exact Heq |]. rewrite Heq. apply includes_spec.
Qed.

Lemma endsInChange_exists (l : list jsstring) :
  DiffView.endsInChange l = true ->
  exists html, In html l /\ DiffView.is_changed html = true.
Proof.
  unfold DiffView.endsInChange. destruct (List.length l) as [|j]; [discriminate |].
  destruct (nth_error l j) as [prev|] eqn:E; [| discriminate].
  intros H. exists prev. split; [exact (nth_error_In _ _ E) | exact H].
Qed.

Lemma hunkStarts_nonempty (l : list jsstring) :
  (exists html, In html l /\ DiffView.kind html <> DiffView.ContextLine) ->
  Spec.hunkStarts l <> [].
Proof.
  induction l as [|x l IH] using rev_ind; intros [html [Hin Hkind]]; [contradiction |].
  rewrite hunkStarts_snoc, startsHunk_last.
  assert (Hold : (exists h, In h l /\ DiffView.kind h <> DiffView.ContextLine) ->
                 Spec.hunkStarts l ++
                 (if match DiffView.kind x with
                     | DiffView.SeparatorLine => true
                     | DiffView.ChangedLine => negb (DiffView.endsInChange l)
                     | DiffView.ContextLine => false
                     end
                  then [List.length l] else []) <> []).
  { intros Hex Happ. apply app_eq_nil in Happ as [Hnil _]. exact (IH Hex Hnil). }
  apply in_app_or in Hin as [Hin | [<- | []]].
  - apply Hold. now exists html.
  - destruct (DiffView.kind x) eqn:Ek; [| | congruence].
    + intros Happ. now apply app_eq_nil in Happ as [_ Habs].
    + destruct (DiffView.endsInChange l) eqn:Ee.
      * apply Hold. destruct (endsInChange_exists l Ee) as [h [Hh Hch]].
        exists h. split; [exact Hh |]. unfold DiffView.is_changed in Hch.
        now destruct (DiffView.kind h).
      * intros Happ. now apply app_eq_nil in Happ as [_ Habs].
Qed.

(** X6. [findHunks] leaves [hunkElements] null exactly when no line is a
    separator or a changed line; as soon as one line is, the list of hunks
    is not empty. *)
Theorem findHunks_null_iff_context_only (allLines : list jsstring) (v : DiffView.t) :
  DiffView.hunkElements (DiffView.findHunks (Some allLines) v) = None <->
  forall html, In html allLines ->
    DiffView.isHunkSep html = false /\ DiffView.isChangedLine html = false.
Proof.
  simpl. rewrite scanLines_hunkStarts.
  destruct (Spec.hunkStarts allLines) as [|i hunks] eqn:E; simpl.
  - split; [intros _ | reflexivity]. intros html Hin.
    destruct (DiffView.isHunkSep html) eqn:Es, (DiffView.isChangedLine html) eqn:Ec;
      try (split; reflexivity); exfalso;
      apply (hunkStarts_nonempty allLines); try exact E;
      exists html; (split; [exact Hin |]); unfold DiffView.kind; rewrite Es, ?Ec;
      discriminate.
  - split; [discriminate |]. intros Hcontext. exfalso.
    assert (Hin : In i (Spec.hunkStarts allLines)) by (rewrite E; now left).
    apply filter_In in Hin as [_ Hstart]. unfold Spec.startsHunk in Hstart.
    destruct (nth_error allLines i) as [html|] eqn:En; [| discriminate].
    destruct (Hcontext html (nth_error_In _ _ En)) as [Hs Hc].
    unfold DiffView.kind in Hstart. rewrite Hs, Hc in Hstart. discriminate.
Qed.

Lemma nav_eta (v : DiffView.t) :
  DiffView.mk (DiffView.hunkElements v) (DiffView.currentHunkIndex v) = v.
Proof. now destruct v. Qed.

(** X7. With a list of hunks and the current index inside it, [nextHunk]
    and [prevHunk] keep the list and keep the index inside it. Below the
    last hunk [nextHunk] moves the index up by one and scrolls to that hunk,
    and [prevHunk] after it gives the state before; at the last hunk
    [nextHunk] does nothing, and at the first hunk [prevHunk] does nothing. *)
Theorem hunk_navigation_stays_in_list (v : DiffView.t) (hunks : list nat) :
  DiffView.hunkElements v = Some hunks ->
  0 <= DiffView.currentHunkIndex v < Z.of_nat (List.length hunks) ->
  (forall nav, In nav [HunkNav.nextHunk; HunkNav.prevHunk] ->
     DiffView.hunkElements (fst (nav v)) = Some hunks /\
     0 <= DiffView.currentHunkIndex (fst (nav v)) < Z.of_nat (List.length hunks)) /\
  (DiffView.currentHunkIndex v < Z.of_nat (List.length hunks) - 1 ->
     HunkNav.nextHunk v =
       (DiffView.mk (Some hunks) (DiffView.currentHunkIndex v + 1),
        at_index hunks (DiffView.currentHunkIndex v + 1)) /\
     fst (HunkNav.prevHunk (fst (HunkNav.nextHunk v))) = v) /\
  (DiffView.currentHunkIndex v = Z.of_nat (List.length hunks) - 1 ->
     HunkNav.nextHunk v = (v, None)) /\
  (DiffView.currentHunkIndex v = 0 -> HunkNav.prevHunk v = (v, None)).
Proof.
  intros Hh Hidx.
  assert (Hnext : DiffView.currentHunkIndex v < Z.of_nat (List.length hunks) - 1 ->
            HunkNav.nextHunk v =
              (DiffView.mk (Some hunks) (DiffView.currentHunkIndex v + 1),
               at_index hunks (DiffView.currentHunkIndex v + 1))).
  { intros Hlt. unfold HunkNav.nextHunk, HunkNav.scrollToHunk. rewrite Hh.
    destruct (Z.ltb_spec (DiffView.currentHunkIndex v) (Z.of_nat (List.length hunks) - 1));
      [| lia].
    destruct (Z.geb_spec (DiffView.currentHunkIndex v + 1) 0); [| lia].
    destruct (Z.ltb_spec (DiffView.currentHunkIndex v + 1) (Z.of_nat (List.length hunks)));
      [reflexivity | lia]. }
  assert (Hlast : Z.of_nat (List.length hunks) - 1 <= DiffView.currentHunkIndex v ->
            HunkNav.nextHunk v = (v, None)).
  { intros Hge. unfold HunkNav.nextHunk. rewrite Hh.
    destruct (Z.ltb_spec (DiffView.currentHunkIndex v) (Z.of_nat (List.length hunks) - 1));
      [lia | reflexivity]. }
  assert (Hprev : 0 < DiffView.currentHunkIndex v ->
            HunkNav.prevHunk v =
              (DiffView.mk (Some hunks) (DiffView.currentHunkIndex v - 1),
               at_index hunks (DiffView.currentHunkIndex v - 1))).
  { intros Hgt. unfold HunkNav.prevHunk, HunkNav.scrollToHunk. rewrite Hh.
    destruct (Z.gtb_spec (DiffView.currentHunkIndex v) 0); [| lia].
    destruct (Z.geb_spec (DiffView.currentHunkIndex v - 1) 0); [| lia].
    destruct (Z.ltb_spec (DiffView.currentHunkIndex v - 1) (Z.of_nat (List.length hunks)));
      [reflexivity | lia]. }
  assert (Hfirst : DiffView.currentHunkIndex v <= 0 -> HunkNav.prevHunk v = (v, None)).
  { intros Hle. unfold HunkNav.prevHunk. rewrite Hh.
    destruct (Z.gtb_spec (DiffView.currentHunkIndex v) 0); [lia | reflexivity]. }
  split; [| split; [| split]].
  - intros nav [<- | [<- | []]].
    + destruct (Z.lt_ge_cases (DiffView.currentHunkIndex v) (Z.of_nat (List.length hunks) - 1)).
      * rewrite Hnext by assumption. simpl. split; [reflexivity | lia].
      * rewrite Hlast by lia. simpl. split; [exact Hh | exact Hidx].
    + destruct (Z.lt_ge_cases 0 (DiffView.currentHunkIndex v)).
      * rewrite Hprev by assumption. simpl. split; [reflexivity | lia].
      * rewrite Hfirst by lia. simpl. split; [exact Hh | exact Hidx].
  - intros Hlt. split; [now apply Hnext |]. rewrite Hnext by assumption.
    unfold HunkNav.prevHunk, HunkNav.scrollToHunk. simpl.
    destruct (Z.gtb_spec (DiffView.currentHunkIndex v + 1) 0); [| lia].
    destruct (Z.geb_spec (DiffView.currentHunkIndex v + 1 - 1) 0); [| lia].
    destruct (Z.ltb_spec (DiffView.currentHunkIndex v + 1 - 1)
                (Z.of_nat (List.length hunks))); [| lia].
    simpl. replace (DiffView.currentHunkIndex v + 1 - 1) with (DiffView.currentHunkIndex v)
      by lia.
    rewrite <- Hh. apply nav_eta.
  - intros Heq. apply Hlast. lia.
  - intros Heq. apply Hfirst. lia.
Qed.

Lemma hunk_navigation_stays_in_list_witness :
  HunkNav.nextHunk (DiffView.mk (Some [1; 3; 4]%nat) 1) =
    (DiffView.mk (Some [1; 3; 4]%nat) 2, Some 4%nat) /\
  fst (HunkNav.prevHunk (fst (HunkNav.nextHunk (DiffView.mk (Some [1; 3; 4]%nat) 1)))) =
    DiffView.mk (Some [1; 3; 4]%nat) 1.
Proof.
  apply (proj1 (proj2 (hunk_navigation_stays_in_list
                         (DiffView.mk (Some [1; 3; 4]%nat) 1) [1; 3; 4]%nat eq_refl
                         ltac:(simpl; lia)))).
  simpl. lia.
Defined.

Lemma fileLoaded_state (allLines : list jsstring) (v : DiffView.t) :
  HunkNav.fileLoaded (Some allLines) v =
  DiffView.mk (match DiffView.scanLines allLines with
               | [] => None
               | i :: hunks => Some (i :: hunks)
               end) 0.
Proof.
  unfold HunkNav.fileLoaded. simpl. now destruct (DiffView.scanLines allLines).
Qed.

Lemma pressNext_state (hunks : list nat) (k : nat) :
  hunks <> [] ->
  HunkNav.pressNext k (DiffView.mk (Some hunks) 0) =
  DiffView.mk (Some hunks) (Z.min (Z.of_nat k) (Z.of_nat (List.length hunks) - 1)).
Proof.
  intros Hne.
  assert (Hlen : 0 < Z.of_nat (List.length hunks)) by (destruct hunks; [congruence | simpl; lia]).
  induction k as [|k IH].
  - simpl. f_equal. lia.
  - unfold HunkNav.pressNext in *. simpl Nat.iter. rewrite IH.
    unfold HunkNav.nextHunk, HunkNav.scrollToHunk. simpl.
    destruct (Z.ltb_spec (Z.min (Z.of_nat k) (Z.of_nat (List.length hunks) - 1))
                (Z.of_nat (List.length hunks) - 1)).
    + destruct (Z.geb_spec (Z.min (Z.of_nat k) (Z.of_nat (List.length hunks) - 1) + 1) 0);
        [| lia].
      destruct (Z.ltb_spec (Z.min (Z.of_nat k) (Z.of_nat (List.length hunks) - 1) + 1)
                  (Z.of_nat (List.length hunks))); [| lia].
      simpl. f_equal. lia.
    + simpl. f_equal. lia.
Qed.

Lemma pressNext_without_hunks (k : nat) :
  HunkNav.pressNext k (DiffView.mk None 0) = DiffView.mk None 0.
Proof.
  induction k as [|k IH]; [reflexivity |].
  unfold HunkNav.pressNext in *. simpl Nat.iter. now rewrite IH.
Qed.

(** X8. After a file is loaded the index is 0; pressing the key for the
    next hunk [k] times puts it at [k], or at the last hunk when there are
    fewer, and leaves it at 0 when there is no hunk; and while a further
    hunk exists, the next press scrolls to hunk number [k + 1] of the scan,
    which is a line where a hunk starts. *)
Theorem next_hunk_walks_the_scan (allLines : list jsstring) (v : DiffView.t) (k : nat) :
  let hunks := DiffView.scanLines allLines in
  let v0 := HunkNav.fileLoaded (Some allLines) v in
  DiffView.currentHunkIndex (HunkNav.pressNext k v0) =
    Z.max 0 (Z.min (Z.of_nat k) (Z.of_nat (List.length hunks) - 1)) /\
  ((S k < List.length hunks)%nat ->
   exists i, snd (HunkNav.nextHunk (HunkNav.pressNext k v0)) = Some i /\
             nth_error hunks (S k) = Some i /\
             Spec.startsHunk allLines i = true).
Proof.
  intros hunks v0. subst v0. rewrite fileLoaded_state. fold hunks.
  assert (Hstate : hunks <> [] ->
            HunkNav.pressNext k
              (DiffView.mk match hunks with [] => None | i :: hs => Some (i :: hs) end 0) =
            DiffView.mk (Some hunks) (Z.min (Z.of_nat k) (Z.of_nat (List.length hunks) - 1))).
  { intros Hne. destruct hunks as [|i hs] eqn:E; [congruence |].
    now apply pressNext_state. }
  split.
  - destruct hunks as [|i hs] eqn:E.
    + rewrite pressNext_without_hunks. simpl. lia.
    + rewrite Hstate by discriminate. cbn [DiffView.currentHunkIndex].
      change (List.length (i :: hs)) with (S (List.length hs)).
      rewrite Nat2Z.inj_succ. lia.
  - intros Hlt.
    assert (Hne : hunks <> []) by (destruct hunks; [simpl in Hlt; lia | congruence]).
    rewrite (Hstate Hne).
    destruct (nth_error hunks (S k)) as [i|] eqn:En.
    2: { apply nth_error_None in En. lia. }
    exists i. split; [| split; [reflexivity |]].
    + unfold HunkNav.nextHunk, HunkNav.scrollToHunk. simpl.
      replace (Z.min (Z.of_nat k) (Z.of_nat (List.length hunks) - 1)) with (Z.of_nat k)
        by lia.
      destruct (Z.ltb_spec (Z.of_nat k) (Z.of_nat (List.length hunks) - 1)); [| lia].
      destruct (Z.geb_spec (Z.of_nat k + 1) 0); [| lia].
      destruct (Z.ltb_spec (Z.of_nat k + 1) (Z.of_nat (List.length hunks))); [| lia].
      simpl. replace (Z.of_nat k + 1) with (Z.of_nat (S k)) by lia.
      now rewrite at_index_nat.
    + assert (Hin : In i (Spec.hunkStarts allLines)).
      { rewrite <- scanLines_hunkStarts. exact (nth_error_In _ _ En). }
      now apply filter_In in Hin.
Qed.

Lemma next_hunk_walks_the_scan_witness :
  exists i,
    snd (HunkNav.nextHunk
           (HunkNav.pressNext 1 (HunkNav.fileLoaded (Some Session.lines) (DiffView.mk None 7))))
      = Some i /\
    nth_error (DiffView.scanLines Session.lines) 2 = Some i /\
    Spec.startsHunk Session.lines i = true.
Proof.
  apply (proj2 (next_hunk_walks_the_scan Session.lines (DiffView.mk None 7) 1%nat)).
  vm_compute. lia.
Defined.

(** X9. [findHunks] does not touch [currentHunkIndex]. When the index it
    finds is greater than the number of hunks of the new scan, neither
    [nextHunk] nor [prevHunk] moves or scrolls any more. *)
Theorem stale_hunk_index_blocks_navigation (allLines : list jsstring) (v : DiffView.t) :
  Z.of_nat (List.length (DiffView.scanLines allLines)) < DiffView.currentHunkIndex v ->
  let v' := DiffView.findHunks (Some allLines) v in
  DiffView.currentHunkIndex v' = DiffView.currentHunkIndex v /\
  HunkNav.nextHunk v' = (v', None) /\
  HunkNav.prevHunk v' = (v', None).
Proof.
  intros Hstale v'. split; [reflexivity |]. subst v'.
  unfold HunkNav.nextHunk, HunkNav.prevHunk, HunkNav.scrollToHunk. simpl.
  destruct (DiffView.scanLines allLines) as [|i hunks]; [split; reflexivity |].
  cbn [DiffView.hunkElements DiffView.currentHunkIndex] in *.
  destruct (Z.gtb_spec (Z.of_nat (List.length (i :: hunks))) 0); [| simpl in *; lia].
  cbn [DiffView.hunkElements DiffView.currentHunkIndex].
  destruct (Z.ltb_spec (DiffView.currentHunkIndex v) (Z.of_nat (List.length (i :: hunks)) - 1));
    [lia |].
  destruct (Z.gtb_spec (DiffView.currentHunkIndex v) 0); [| lia].
  destruct (Z.geb_spec (DiffView.currentHunkIndex v - 1) 0); [| lia].
  destruct (Z.ltb_spec (DiffView.currentHunkIndex v - 1) (Z.of_nat (List.length (i :: hunks))));
    [lia |].
  split; reflexivity.
Qed.

Lemma stale_hunk_index_blocks_navigation_witness :
  let v' := DiffView.findHunks (Some Session.lines) (DiffView.mk (Some [0; 2; 5; 7; 9]%nat) 4) in
  DiffView.currentHunkIndex v' = 4 /\
  HunkNav.nextHunk v' = (v', None) /\
  HunkNav.prevHunk v' = (v', None).
Proof.
  apply (stale_hunk_index_blocks_navigation Session.lines
           (DiffView.mk (Some [0; 2; 5; 7; 9]%nat) 4)).
  vm_compute. reflexivity.
Defined.

(** ** Start of the application *)

Lemma checkDeltaInstalled_helper (reply : Settled bool) (s : Store.t) :
  UseDiff.checkDeltaInstalled reply s =
  (Store.setDeltaInstalled
     (match reply with Fulfilled installed => installed | Rejected _ => false end) s,
   Fulfilled (match reply with Fulfilled installed => installed | Rejected _ => false end)).
Proof. now destruct reply. Qed.

(** X10. [getAppArgs] never throws and never touches the store: it returns
    the arguments the back end answers, and the empty array when the call is
    rejected. *)
Theorem getAppArgs_total (reply : Settled (list string)) (s : Store.t) :
  Startup.getAppArgs reply s =
  (s, Fulfilled (match reply with Fulfilled args => args | Rejected _ => [] end)).
Proof. now destruct reply. Qed.

(** X11. [initialize] never throws. It records the answer of the delta probe
    ([false] when the probe fails). If [get_app_args] answers at least three
    arguments of which the second and the third are not empty, it does what
    [handleLoadDirs] does with these two typed into the inputs: the picker is
    hidden and the tree of the two directories is requested. In every other
    case -- the call rejected, fewer than three arguments, an empty
    directory -- the picker and its inputs stay as they are and no tree is
    requested. *)
Theorem initialize_loads_or_keeps_picker (delta : Settled bool)
  (args : Settled (list string)) (c : Startup.t) (s : Store.t) :
  let s1 := Store.setDeltaInstalled
              (match delta with Fulfilled installed => installed | Rejected _ => false end)
              s in
  Startup.initialize delta args c s =
  match args with
  | Fulfilled (_ :: leftDir :: rightDir :: _) =>
      if Startup.truthy leftDir && Startup.truthy rightDir
      then Startup.handleLoadDirs
             (Startup.mk leftDir rightDir (Startup.showDirectoryPicker c)) s1
      else (c, s1, Startup.Returned)
  | _ => (c, s1, Startup.Returned)
  end.
Proof.
  intros s1. subst s1. unfold Startup.initialize.
  rewrite (checkDeltaInstalled_helper delta s).
  destruct args as [[|exe [|leftDir [|rightDir rest]]] | reason]; try reflexivity.
  cbv beta iota delta [Startup.getAppArgs UseDiff.try_catch UseDiff.bind UseDiff.await
                       UseDiff.ret].
  destruct (Z.geb_spec (Z.of_nat (List.length (exe :: leftDir :: rightDir :: rest))) 3)
    as [_ | Hlt]; [| simpl List.length in Hlt; lia].
  unfold Startup.handleLoadDirs.
  change (at_index (exe :: leftDir :: rightDir :: rest) 1) with (Some leftDir).
  change (at_index (exe :: leftDir :: rightDir :: rest) 2) with (Some rightDir).
  cbn [Startup.leftDirInput Startup.rightDirInput Startup.showDirectoryPicker].
  now destruct (Startup.truthy leftDir && Startup.truthy rightDir).
Qed.

(** ** What holds on every run *)

Lemma run_snoc (trace : list App.Event) (e : App.Event) (w : App.t) :
  App.run w (trace ++ [e]) =
  match App.run w trace with
  | Some w1 => App.step w1 e
  | None => None
  end.
Proof.
  revert w. induction trace as [|e0 trace IH]; intros w; simpl.
  - now destruct (App.step w e).
  - destruct (App.step w e0); [apply IH | reflexivity].
Qed.

Lemma reachable_step (w w' : App.t) (e : App.Event) :
  App.reachable w -> App.step w e = Some w' -> App.reachable w'.
Proof.
  intros [trace Hrun] Hstep. exists (trace ++ [e]). now rewrite run_snoc, Hrun.
Qed.

(** Induction on the events of a run. *)
Lemma reachable_induction (P : App.t -> Prop) :
  P App.initial ->
  (forall w e w', App.reachable w -> P w -> App.step w e = Some w' -> P w') ->
  forall w, App.reachable w -> P w.
Proof.
  intros Hinit Hstep w [trace Hrun]. revert w Hrun.
  induction trace as [|e trace IH] using rev_ind; intros w Hrun.
  - simpl in Hrun. now injection Hrun as <-.
  - rewrite run_snoc in Hrun.
    destruct (App.run App.initial trace) as [w1|] eqn:E; [| discriminate].
    apply (Hstep w1 e w); [now exists trace | now apply IH | exact Hrun].
Qed.

Lemma snoc_not_nil {A : Type} (l : list A) (x : A) : l ++ [x] <> [].
Proof. intros H. now apply app_eq_nil in H as [_ H]. Qed.

(** Closes a goal about the loading flag, the diff, the error and the
    pending calls after the store has been computed. *)
Ltac display :=
  cbn; repeat split; intros;
  try congruence; try (now apply snoc_not_nil); intuition congruence.

Lemma handler_display (e : App.Event) (w : App.t) :
  (Store.isLoadingDiff (App.store w) = true ->
   Store.currentDiff (App.store w) = None /\ Store.diffError (App.store w) = None /\
   App.inflight w <> []) /\
  (Store.currentDiff (App.store w) = None \/ Store.diffError (App.store w) = None) ->
  (Store.isLoadingDiff (App.store (App.handler e w)) = true ->
   Store.currentDiff (App.store (App.handler e w)) = None /\
   Store.diffError (App.store (App.handler e w)) = None /\
   App.inflight (App.handler e w) <> []) /\
  (Store.currentDiff (App.store (App.handler e w)) = None \/
   Store.diffError (App.store (App.handler e w)) = None).
Proof.
  intros H. destruct e; simpl App.handler.
  - unfold App.clickTreeItem.
    destruct (App.node_at _ pos) as [node|]; [| exact H].
    destruct (FileTreeNode.is_dir node) eqn:Ed; [exact H |].
    unfold App.handleFileClick. rewrite Ed. display.
  - unfold App.selectNextFile, Store.selectNextFile.
    destruct (Store.canGoNext (App.store w)); display.
  - unfold App.selectPrevFile, Store.selectPrevFile.
    destruct (Store.canGoPrev (App.store w)); display.
  - unfold App.toggle, App.refreshDiff. fields.
    change (Store.selectedFile (Store.toggleViewOption key (App.store w)))
      with (Store.selectedFile (App.store w)).
    destruct (Store.selectedFile (App.store w)); [| display].
    destruct (App.selected w); display.
  - unfold App.openDirectories, App.loadFileTree. display.
  - unfold App.fileTreeSettled. destruct reply as [result | reason]; [| display].
    fields. rewrite loadFileTree_resume_fulfilled. cbv zeta.
    destruct (Z.of_nat (List.length (FileTreeResult.files result)) >? 0); [| display].
    unfold Store.selectFirstFile.
    destruct (Z.of_nat (List.length (Store.changedFiles _)) >? 0); display.
  - unfold App.getDiffSettled. destruct reply; display.
  - unfold App.deltaChecked. destruct reply as [[|]|]; display.
  - unfold App.handleShowPicker. display.
Qed.

Lemma flush_display (h : App.t) :
  (Store.isLoadingDiff (App.store h) = true ->
   Store.currentDiff (App.store h) = None /\ Store.diffError (App.store h) = None /\
   App.inflight h <> []) /\
  (Store.currentDiff (App.store h) = None \/ Store.diffError (App.store h) = None) ->
  (Store.isLoadingDiff (App.store (App.flushWatcher h)) = true ->
   Store.currentDiff (App.store (App.flushWatcher h)) = None /\
   Store.diffError (App.store (App.flushWatcher h)) = None /\
   App.inflight (App.flushWatcher h) <> []) /\
  (Store.currentDiff (App.store (App.flushWatcher h)) = None \/
   Store.diffError (App.store (App.flushWatcher h)) = None).
Proof.
  intros H.
  destruct (flush_cases h) as [[x [-> [Hs [_ Hi]]]] | [x [r [file [-> _]]]]].
  - now rewrite Hs, Hi.
  - display.
Qed.

Lemma display_invariant (w : App.t) :
  App.reachable w ->
  (Store.isLoadingDiff (App.store w) = true ->
   Store.currentDiff (App.store w) = None /\ Store.diffError (App.store w) = None /\
   App.inflight w <> []) /\
  (Store.currentDiff (App.store w) = None \/ Store.diffError (App.store w) = None).
Proof.
  revert w. apply reachable_induction.
  - split; [discriminate | now left].
  - intros w e w' _ IH Hstep. unfold App.step in Hstep.
    destruct (App.enabled e w); [| discriminate]. injection Hstep as <-.
    apply flush_display. now apply handler_display.
Qed.

Lemma opened_rendered_reachable : App.reachable (Session.after Session.rendered).
Proof. exists Session.rendered. vm_compute. reflexivity. Qed.

(** X12. On every run the view shows one thing at a time: while
    [isLoadingDiff] is true there is neither a current diff nor a diff
    error, and a current diff and a diff error are never both present. *)
Theorem loading_diff_error_exclusive (w : App.t) :
  App.reachable w ->
  (Store.isLoadingDiff (App.store w) = true ->
   Store.currentDiff (App.store w) = None /\ Store.diffError (App.store w) = None) /\
  (Store.currentDiff (App.store w) = None \/ Store.diffError (App.store w) = None).
Proof.
  intros Hreach. destruct (display_invariant w Hreach) as [Hloading Hone].
  split; [| exact Hone]. intros H. destruct (Hloading H) as [Hd [He _]]. now split.
Qed.

Lemma loading_diff_error_exclusive_witness :
  Store.currentDiff (App.store (Session.after Session.rendered)) = None \/
  Store.diffError (App.store (Session.after Session.rendered)) = None.
Proof.
  exact (proj2 (loading_diff_error_exclusive (Session.after Session.rendered)
                  opened_rendered_reachable)).
Defined.

(** X13. On every run, while [isLoadingDiff] is true a [get_diff] call is
    pending: when the last pending call settles, the loading state ends. *)
Theorem loading_has_pending_call (w : App.t) :
  App.reachable w ->
  Store.isLoadingDiff (App.store w) = true -> App.inflight w <> [].
Proof.
  intros Hreach H. destruct (display_invariant w Hreach) as [Hloading _].
  now destruct (Hloading H) as [_ [_ Hpending]].
Qed.

Lemma loading_has_pending_call_witness :
  App.inflight (Session.after Session.opened) <> [].
Proof.
  apply (loading_has_pending_call (Session.after Session.opened) opened_reachable).
  vm_compute. reflexivity.
Defined.

Lemma at_index_changed_file (s : Store.t) (i : Z) :
  0 <= i < Z.of_nat (List.length (Store.changedFiles s)) ->
  exists f, at_index (Store.changedFiles s) i = Some f /\ FileEntry.is_dir f = false.
Proof.
  intros Hi. destruct (at_index_in_range (Store.changedFiles s) i Hi) as [f Hf].
  exists f. split; [exact Hf |]. apply (changedFiles_not_directories s).
  unfold at_index in Hf. destruct (i <? 0); [discriminate |].
  exact (nth_error_In _ _ Hf).
Qed.

(** A handler keeps the selected file or selects a file that is not a
    directory. *)
Lemma handler_selection (e : App.Event) (w : App.t) :
  Store.selectedFile (App.store (App.handler e w)) = Store.selectedFile (App.store w) \/
  exists f, Store.selectedFile (App.store (App.handler e w)) = Some f /\
            FileEntry.is_dir f = false.
Proof.
  destruct e; simpl App.handler.
  - unfold App.clickTreeItem.
    destruct (App.node_at _ pos) as [node|]; [| now left].
    destruct (FileTreeNode.is_dir node) eqn:Ed; [now left |].
    unfold App.handleFileClick. rewrite Ed. right. eexists. split; reflexivity.
  - unfold App.selectNextFile, Store.selectNextFile. fields.
    pose proof (currentFileIndex_range (App.store w)) as Hrange.
    unfold Store.canGoNext.
    destruct (Z.ltb_spec (Store.currentFileIndex (App.store w))
                (Z.of_nat (List.length (Store.changedFiles (App.store w))) - 1));
      [| now left].
    destruct (at_index_changed_file (App.store w) (Store.currentFileIndex (App.store w) + 1))
      as [f [Hf Hd]]; [lia |].
    right. exists f. now rewrite Hf.
  - unfold App.selectPrevFile, Store.selectPrevFile. fields.
    pose proof (currentFileIndex_range (App.store w)) as Hrange.
    unfold Store.canGoPrev.
    destruct (Z.gtb_spec (Store.currentFileIndex (App.store w)) 0); [| now left].
    destruct (at_index_changed_file (App.store w) (Store.currentFileIndex (App.store w) - 1))
      as [f [Hf Hd]]; [lia |].
    right. exists f. now rewrite Hf.
  - left. unfold App.toggle, App.refreshDiff. fields.
    change (Store.selectedFile (Store.toggleViewOption key (App.store w)))
      with (Store.selectedFile (App.store w)).
    destruct (Store.selectedFile (App.store w)) eqn:Ef; [| exact Ef].
    destruct (App.selected w); [reflexivity | exact Ef].
  - now left.
  - unfold App.fileTreeSettled. destruct reply as [result | reason]; [| now left].
    fields. rewrite loadFileTree_resume_fulfilled. cbv zeta.
    destruct (Z.of_nat (List.length (FileTreeResult.files result)) >? 0); [| now left].
    unfold Store.selectFirstFile.
    destruct (Z.gtb_spec (Z.of_nat (List.length (Store.changedFiles
                (Store.setFileTree (FileTreeResult.tree result) (FileTreeResult.files result)
                   (FileTreeResult.total_changes result) (FileTreeResult.added result)
                   (FileTreeResult.deleted result) (FileTreeResult.modified result)
                   (App.store w))))) 0) as [Hpos | _]; [| now left].
    destruct (at_index_changed_file _ 0 (conj (Z.le_refl 0) Hpos)) as [f [Hf Hd]].
    right. exists f. now rewrite Hf.
  - left. unfold App.getDiffSettled. now destruct reply.
  - left. unfold App.deltaChecked. now destruct reply as [[|]|].
  - now left.
Qed.

(** X14. On every run the selected file is never a directory, and once a
    file is selected no event clears the selection: the store never holds
    [null] or [undefined] again. *)
Theorem selection_is_a_file_and_stays (w : App.t) :
  App.reachable w ->
  (forall f, Store.selectedFile (App.store w) = Some f -> FileEntry.is_dir f = false) /\
  (forall e w', App.step w e = Some w' ->
     Store.selectedFile (App.store w) <> None ->
     Store.selectedFile (App.store w') <> None).
Proof.
  intros Hreach. split.
  - revert w Hreach. apply (reachable_induction
      (fun w => forall f, Store.selectedFile (App.store w) = Some f ->
                          FileEntry.is_dir f = false)).
    + discriminate.
    + intros w e w' _ IH Hstep f Hf. unfold App.step in Hstep.
      destruct (App.enabled e w); [| discriminate]. injection Hstep as <-.
      rewrite flush_selectedFile in Hf.
      destruct (handler_selection e w) as [Hsame | [g [Hg Hd]]].
      * apply IH. now rewrite <- Hsame.
      * congruence.
  - intros e w' Hstep Hsome. unfold App.step in Hstep.
    destruct (App.enabled e w); [| discriminate]. injection Hstep as <-.
    rewrite flush_selectedFile.
    destruct (handler_selection e w) as [-> | [g [-> _]]]; [exact Hsome | discriminate].
Qed.

Lemma selection_is_a_file_and_stays_witness :
  FileEntry.is_dir Session.fileA = false.
Proof.
  apply (proj1 (selection_is_a_file_and_stays (Session.after Session.opened)
                  opened_reachable)).
  vm_compute. reflexivity.
Defined.

(** ** Loading a tree *)

Lemma enabled_tree (reply : Settled FileTreeResult.t) (w : App.t) :
  App.treeLoads w <> 0%nat -> App.enabled (App.FileTreeSettled reply) w = true.
Proof. intros H. simpl. now destruct (Nat.eqb_spec (App.treeLoads w) 0). Qed.

(** X15. When the tree arrives with a non-empty file list and at least one
    changed file, the store takes the tree, the first changed file in
    display order is selected and the diff on display is cleared. While the
    main view is rendered, exactly one [get_diff] call is made, for that
    file; while the picker is shown, [DiffView] and its watcher do not
    exist, and no call is made. *)
Theorem tree_loaded_selects_first_file (w : App.t) (result : FileTreeResult.t)
  (first : FileEntry.t) (rest : list FileEntry.t) :
  App.reachable w -> App.treeLoads w <> 0%nat ->
  FileTreeResult.files result <> [] ->
  Store.flattenTree (FileTreeResult.tree result) = first :: rest ->
  exists w',
    App.step w (App.FileTreeSettled (Fulfilled result)) = Some w' /\
    Store.fileTree (App.store w') = FileTreeResult.tree result /\
    Store.isLoadingTree (App.store w') = false /\
    Store.treeError (App.store w') = None /\
    Store.selectedFile (App.store w') = Some first /\
    Store.currentDiff (App.store w') = None /\
    App.issuedSince w w' =
      if App.mounted w
      then [ UseDiff.mkRequest first (FileEntry.left_path first)
               (FileEntry.right_path first) (Store.viewOptions (App.store w)) ]
      else [].
Proof.
  intros Hreach Hloads Hfiles Hflat.
  pose proof (reachable_holds _ Hreach) as [C Hran Hrend].
  unfold App.step. rewrite (enabled_tree _ _ Hloads). simpl App.handler.
  unfold App.fileTreeSettled. rewrite loadFileTree_resume_fulfilled. cbv zeta.
  assert (Hpos : (Z.of_nat (List.length (FileTreeResult.files result)) >? 0) = true).
  { destruct (FileTreeResult.files result); [congruence | reflexivity]. }
  rewrite Hpos. cbn [andb]. rewrite selectFirstFile_changedFiles.
  unfold Store.selectFirstFile.
  set (s1 := Store.setFileTree _ _ _ _ _ _ (App.store w)).
  assert (Hchanged : Store.changedFiles s1 = first :: rest) by exact Hflat.
  rewrite Hchanged. cbn [List.length].
  assert (Hlen : (Z.of_nat (S (List.length rest)) >? 0) = true)
    by (apply Z.gtb_lt; lia).
  rewrite Hlen. change (at_index (first :: rest) 0) with (Some first).
  set (h := App.mk _ _ _ _ _ _ _ _ _ _ _).
  destruct (App.mounted w) eqn:Hmount.
  - assert (Hpick : App.showDirectoryPicker w = false)
      by (now destruct (App.showDirectoryPicker w)).
    assert (Hfresh : App.watched h <> Some (App.Flattened (S (App.epoch w)) 0)).
    { subst h. fields. rewrite (Hran eq_refl). intros Hsel.
      destruct (Invariant.selection_listed _ C _ _ Hsel) as [Hle _]. lia. }
    rewrite (flush_fires h (App.Flattened (S (App.epoch w)) 0) first eq_refl eq_refl
               Hfresh Hpick eq_refl).
    eexists. split; [reflexivity |].
    repeat (split; [reflexivity |]).
    apply issuedSince_app. rewrite loadDiff_issued. subst h. fields. reflexivity.
  - assert (Hpick : App.showDirectoryPicker w = true)
      by (now destruct (App.showDirectoryPicker w)).
    rewrite (flush_unmounted h Hpick eq_refl).
    eexists. split; [reflexivity |].
    repeat (split; [reflexivity |]).
    now apply issuedSince_same.
Qed.

Lemma tree_loaded_selects_first_file_witness :
  (exists w',
     App.step (Session.after [App.LoadFileTree "/left" "/right"])
       (App.FileTreeSettled (Fulfilled Session.treeResult)) = Some w' /\
     Store.selectedFile (App.store w') = Some Session.fileA /\
     List.length (App.issuedSince (Session.after [App.LoadFileTree "/left" "/right"]) w') =
       1%nat) /\
  (exists w',
     App.step (Session.after Session.pickerShown)
       (App.FileTreeSettled (Fulfilled Session.treeResult)) = Some w' /\
     Store.selectedFile (App.store w') = Some Session.fileA /\
     App.issuedSince (Session.after Session.pickerShown) w' = []).
Proof.
  split.
  - destruct (tree_loaded_selects_first_file
                (Session.after [App.LoadFileTree "/left" "/right"]) Session.treeResult
                Session.fileA [Session.fileB])
      as [w' [Hstep [_ [_ [_ [Hsel [_ Hissued]]]]]]].
    + exists [App.LoadFileTree "/left" "/right"]. vm_compute. reflexivity.
    + vm_compute. discriminate.
    + discriminate.
    + reflexivity.
    + exists w'. split; [exact Hstep | split; [exact Hsel |]].
      rewrite Hissued. reflexivity.
  - destruct (tree_loaded_selects_first_file
                (Session.after Session.pickerShown) Session.treeResult
                Session.fileA [Session.fileB])
      as [w' [Hstep [_ [_ [_ [Hsel [_ Hissued]]]]]]].
    + exists Session.pickerShown. vm_compute. reflexivity.
    + vm_compute. discriminate.
    + discriminate.
    + reflexivity.
    + exists w'. split; [exact Hstep | split; [exact Hsel | exact Hissued]].
Defined.

(** X16. When [get_file_tree] is rejected, the message is stored in
    [treeError] and [isLoadingTree] becomes false; every other ref of the
    store keeps its value -- the tree shown before, the selected file and
    its diff among them -- and no [get_diff] call is made. *)
Theorem tree_failure_is_local (w : App.t) (error : string) :
  App.reachable w -> App.treeLoads w <> 0%nat ->
  exists w',
    App.step w (App.FileTreeSettled (Rejected error)) = Some w' /\
    App.store w' =
      (let s := App.store w in
       Store.mk (Store.leftDir s) (Store.rightDir s) (Store.fileTree s) (Store.files s)
         (Store.totalChanges s) (Store.addedCount s) (Store.deletedCount s)
         (Store.modifiedCount s) (Store.selectedFile s) (Store.currentDiff s)
         (Store.isLoadingDiff s) (Store.diffError s) (Store.viewOptions s)
         (Store.deltaInstalled s) false (Some error)) /\
    App.issuedSince w w' = [].
Proof.
  intros Hreach Hloads. pose proof (reachable_holds _ Hreach) as H.
  exists (App.fileTreeSettled (Rejected error) w).
  unfold App.step. rewrite (enabled_tree _ _ Hloads). simpl App.handler.
  rewrite (flush_same_object w); [| exact H | reflexivity | reflexivity | reflexivity | reflexivity].
  split; [reflexivity | split; [reflexivity |]].
  now apply issuedSince_same.
Qed.

Lemma tree_failure_is_local_witness :
  exists w',
    App.step (Session.after [App.LoadFileTree "/left" "/missing"])
      (App.FileTreeSettled (Rejected "No such directory")) = Some w' /\
    Store.treeError (App.store w') = Some "No such directory" /\
    Store.isLoadingTree (App.store w') = false.
Proof.
  destruct (tree_failure_is_local
              (Session.after [App.LoadFileTree "/left" "/missing"]) "No such directory")
    as [w' [Hstep [Hstore _]]].
  - exists [App.LoadFileTree "/left" "/missing"]. vm_compute. reflexivity.
  - vm_compute. discriminate.
  - exists w'. split; [exact Hstep |]. rewrite Hstore. split; reflexivity.
Defined.

(** X17. When the tree that arrives has no changed file, [selectFirstFile]
    selects nothing: the file selected before, its diff and its error stay
    in the store although the list of changed files is now empty; the index
    of the selection is -1, [canGoNext] and [canGoPrev] are false, and no
    [get_diff] call is made. *)
Theorem tree_without_changes_keeps_selection (w : App.t) (result : FileTreeResult.t) :
  App.reachable w -> App.treeLoads w <> 0%nat ->
  Store.flattenTree (FileTreeResult.tree result) = [] ->
  exists w',
    App.step w (App.FileTreeSettled (Fulfilled result)) = Some w' /\
    Store.fileTree (App.store w') = FileTreeResult.tree result /\
    Store.changedFiles (App.store w') = [] /\
    Store.selectedFile (App.store w') = Store.selectedFile (App.store w) /\
    Store.currentDiff (App.store w') = Store.currentDiff (App.store w) /\
    Store.diffError (App.store w') = Store.diffError (App.store w) /\
    Store.currentFileIndex (App.store w') = -1 /\
    Store.canGoNext (App.store w') = false /\
    Store.canGoPrev (App.store w') = false /\
    App.issuedSince w w' = [].
Proof.
  intros Hreach Hloads Hflat. pose proof (reachable_holds _ Hreach) as H.
  exists (App.flushWatcher (App.fileTreeSettled (Fulfilled result) w)).
  unfold App.step. rewrite (enabled_tree _ _ Hloads). simpl App.handler.
  split; [reflexivity |].
  unfold App.fileTreeSettled. rewrite loadFileTree_resume_fulfilled. cbv zeta.
  set (s1 := Store.setFileTree _ _ _ _ _ _ (App.store w)).
  assert (Hchanged : Store.changedFiles s1 = []) by exact Hflat.
  assert (Hfirst : Store.selectFirstFile s1 = s1).
  { unfold Store.selectFirstFile. now rewrite Hchanged. }
  assert (Hstore : (if Z.of_nat (List.length (FileTreeResult.files result)) >? 0
                    then Store.selectFirstFile s1 else s1) = s1).
  { now destruct (Z.of_nat (List.length (FileTreeResult.files result)) >? 0). }
  rewrite Hstore, Hchanged. cbn [List.length].
  rewrite andb_false_r.
  rewrite (flush_same_object w); [| exact H | reflexivity | reflexivity | reflexivity | reflexivity].
  fields.
  assert (Hidx : Store.currentFileIndex s1 = -1).
  { unfold Store.currentFileIndex. rewrite Hchanged. now destruct (Store.selectedFile s1). }
  repeat (split; [reflexivity || exact Hchanged || exact Hidx |]).
  split; [unfold Store.canGoNext; now rewrite Hidx, Hchanged |].
  split; [unfold Store.canGoPrev; now rewrite Hidx |].
  now apply issuedSince_same.
Qed.

Lemma tree_without_changes_keeps_selection_witness :
  exists w',
    App.step (Session.after (Session.rendered ++ [App.LoadFileTree "/left" "/left"]))
      (App.FileTreeSettled (Fulfilled (FileTreeResult.mk [] [] 0 0 0 0))) = Some w' /\
    Store.changedFiles (App.store w') = [] /\
    Store.selectedFile (App.store w') = Some Session.fileA /\
    Store.currentDiff (App.store w') = Some Session.diffA.
Proof.
  destruct (tree_without_changes_keeps_selection
              (Session.after (Session.rendered ++ [App.LoadFileTree "/left" "/left"]))
              (FileTreeResult.mk [] [] 0 0 0 0))
    as [w' [Hstep [_ [Hchanged [Hsel [Hdiff _]]]]]].
  - exists (Session.rendered ++ [App.LoadFileTree "/left" "/left"]). vm_compute. reflexivity.
  - vm_compute. discriminate.
  - reflexivity.
  - exists w'. split; [exact Hstep | split; [exact Hchanged | split]].
    + rewrite Hsel. vm_compute. reflexivity.
    + rewrite Hdiff. vm_compute. reflexivity.
Defined.

(** ** Calls for a diff *)

Lemma requests_follow_selection_witness :
  App.forSelection
    (App.store (Session.after (Session.rendered ++ [App.ClickTreeItem [1%nat]])))
    (UseDiff.mkRequest Session.fileB None (Some "/right/b.txt")
       (DiffOptions.mk true true true false)).
Proof.
  apply (requests_follow_selection (Session.after Session.rendered)
           (Session.after (Session.rendered ++ [App.ClickTreeItem [1%nat]]))
           (App.ClickTreeItem [1%nat])).
  - vm_compute. reflexivity.
  - vm_compute. left. reflexivity.
Defined.

Lemma file_click_issues_two_witness :
  exists w' req,
    App.step (Session.after Session.rendered) (App.ClickTreeItem [1%nat]) = Some w' /\
    App.issuedSince (Session.after Session.rendered) w' = [req; req] /\
    FileEntry.path (UseDiff.file req) = FileTreeNode.path Session.nodeB.
Proof.
  apply (file_click_issues_two (Session.after Session.rendered) [1%nat] Session.nodeB
           opened_rendered_reachable); reflexivity.
Defined.

Lemma next_issues_one_witness :
  exists w' req,
    App.step (Session.after Session.rendered) App.KeyJ = Some w' /\
    App.issuedSince (Session.after Session.rendered) w' = [req] /\
    Some (UseDiff.file req) = Some Session.fileB.
Proof.
  apply (next_issues_one (Session.after Session.rendered) opened_rendered_reachable).
  - vm_compute. reflexivity.
  - vm_compute. reflexivity.
  - vm_compute. discriminate.
Defined.

(** X21. While the main view is rendered, the key [k], when there is a
    previous file other than the selected object, makes one call, for that
    file. *)
Lemma prev_issues_one (w : App.t) :
  App.reachable w -> App.mounted w = true ->
  Store.canGoPrev (App.store w) = true ->
  App.selected w <> App.listed w (Store.currentFileIndex (App.store w) - 1) ->
  exists w' req,
    App.step w App.KeyK = Some w' /\
    App.issuedSince w w' = [req] /\
    Some (UseDiff.file req) =
      at_index (Store.changedFiles (App.store w)) (Store.currentFileIndex (App.store w) - 1).
Proof.
  intros Hreach Hmount Hprev Hother.
  pose proof (reachable_holds _ Hreach) as [C Hran Hrend].
  assert (Hpick : App.showDirectoryPicker w = false)
    by (rewrite Hmount in Hrend; now destruct (App.showDirectoryPicker w)).
  unfold App.listed in Hother.
  pose proof (currentFileIndex_range (App.store w)) as Hrange.
  pose proof Hprev as Hgt. unfold Store.canGoPrev in Hgt. apply Z.gtb_lt in Hgt.
  destruct (at_index_in_range (Store.changedFiles (App.store w))
              (Store.currentFileIndex (App.store w) - 1)) as [f Hf]; [lia |].
  rewrite Hf in Hother |- *.
  unfold App.step. simpl App.enabled. rewrite Hmount.
  simpl App.handler. unfold App.selectPrevFile, Store.selectPrevFile, App.listed.
  rewrite Hprev, Hf.
  set (r := App.Flattened _ _) in *.
  set (h := App.mk _ _ _ _ _ _ _ _ _ _ _).
  rewrite (flush_fires h r f eq_refl eq_refl); [| | exact Hpick | exact Hmount].
  2: { subst h. fields. now rewrite (Hran Hmount). }
  subst h.
  eexists. eexists. split; [reflexivity | split].
  - apply issuedSince_app. rewrite loadDiff_issued. fields. reflexivity.
  - reflexivity.
Qed.

Lemma prev_issues_one_witness :
  exists w' req,
    App.step (Session.after Session.keyed) App.KeyK = Some w' /\
    App.issuedSince (Session.after Session.keyed) w' = [req] /\
    Some (UseDiff.file req) = Some Session.fileA.
Proof.
  apply (prev_issues_one (Session.after Session.keyed)).
  - exists Session.keyed. vm_compute. reflexivity.
  - vm_compute. reflexivity.
  - vm_compute. reflexivity.
  - vm_compute. discriminate.
Defined.

(** ** Shape of the changed-file list *)

(** X22. [flattenTree] follows the shape of the tree: the list of two
    sequences of nodes is the list of the first followed by the list of the
    second, and a directory gives exactly the list of its children, whatever
    its own status. *)
Theorem flattenTree_follows_tree (nodes more : list FileTreeNode.t)
  (dir : FileTreeNode.t) :
  Store.flattenTree (nodes ++ more) = Store.flattenTree nodes ++ Store.flattenTree more /\
  (FileTreeNode.is_dir dir = true ->
   Store.flattenTree [dir] = Store.flattenTree (FileTreeNode.children dir)).
Proof.
  split.
  - rewrite !flattenTree_inOrder, flat_map_app. apply changedEntries_app.
  - intros Hdir. rewrite !flattenTree_inOrder. simpl.
    destruct dir as [nm p st d ch l r]. simpl in *. subst d.
    rewrite app_nil_r. reflexivity.
Qed.

Lemma flattenTree_follows_tree_witness :
  Store.flattenTree
    [FileTreeNode.mk "src" "src" (Some Modified) true [Session.nodeA; Session.nodeB] None None]
  = Store.flattenTree [Session.nodeA; Session.nodeB].
Proof.
  apply (proj2 (flattenTree_follows_tree [] []
                  (FileTreeNode.mk "src" "src" (Some Modified) true
                     [Session.nodeA; Session.nodeB] None None))).
  reflexivity.
Defined.
